(** * PayChargePortal: the payment-plan provisioning routes

    A shallow embedding of the two provisioning handlers of the server,

    - [POST /api/create-subscription]       (server/routes.ts), the direct
      subscription flow, called mode A below, and
    - [POST /api/create-checkout-session]   (the schedule-based version of
      the routes file), the redirect flow, called mode B below,

    together with the storage contract and the payment processor they talk
    to.  A handler is a program over the awaited calls; every [await] is one
    step, so that runs can be executed alone or interleaved.  Numbers are
    binary64 values, rounded after each operation; the penalty amount, which
    the checkout route uses without checking it, is any value a body can
    hold.  The earlier version of the checkout route kept in the sources
    (fixed price, no schedule) is not modelled.

    The form handlers of the two versions of the payment portal
    (client/src/pages/payment-portal.tsx) are modelled as far as they
    decide what is posted to these routes and what is done with the
    answer. *)

From Stdlib Require Import ZArith QArith String Ascii List Bool Lia Lqa.
From Stdlib Require Import DecimalString PrimFloat FloatOps SpecFloat.
Import ListNotations.

Local Open Scope list_scope.
Local Open Scope string_scope.

(* ===================================================================== *)
(** ** JavaScript values used by the handlers *)
(* ===================================================================== *)

Module JS.

(** Truthiness of a [string | null | undefined] value: only a non-empty
    string is truthy. *)
Definition truthy (v : option string) : bool :=
  match v with
  | Some s => negb (s =? "")
  | None => false
  end.

(** [a || b] on such values. *)
Definition or_else (a b : option string) : option string :=
  if truthy a then a else b.

(** ** Numbers

    A JS number is a binary64 value.  The finite ones are counted here in
    units of 2^-1074, the smallest positive one: every finite binary64 value
    is a whole number of units, and the values of the arithmetic are
    rounded to a binary64 value after each operation, as the language does
    it (roundTiesToEven).  The sign of zero is not kept: nothing the
    handlers do tells -0 from 0. *)

Definition digits (n : Z) : string :=
  NilZero.string_of_uint (N.to_uint (Z.to_N n)).

Definition two_digits (n : Z) : string :=
  if (n <? 10)%Z then "0" ++ digits n else digits n.

Local Open Scope Z_scope.

Definition scale : Z := 2 ^ 1074.

Inductive Number :=
| NaN
| Infinity (negative : bool)
| Finite (units : Z).

(** [p / d] rounded to the nearest integer, to the even one on a tie
    ([d] positive). *)
Definition nearest_even (p d : Z) : Z :=
  let a := p / d in
  match 2 * (p mod d) ?= d with
  | Lt => a
  | Gt => a + 1
  | Eq => if Z.even a then a else a + 1
  end.

(** The distance between the binary64 values around a magnitude of [f]
    units: one unit up to 2^53 units (the subnormal numbers and the first
    binade of the normal ones), and 53 significant bits from there on. *)
Definition spacing (f : Z) : Z := 2 ^ Z.max 0 (Z.log2 f - 52).

(** 2^1024, in units: what is rounded to it or above overflows. *)
Definition limit : Z := 2 ^ 2098.

Definition round_magnitude (p d : Z) : Z :=
  let s := spacing (p / d) in nearest_even p (d * s) * s.

(** The binary64 value of the fraction [p / d] of units ([d] positive). *)
Definition round (p d : Z) : Number :=
  let n := round_magnitude (Z.abs p) d in
  if limit <=? n then Infinity (p <? 0)
  else Finite (if p <? 0 then - n else n).

(** A whole number of at most 53 bits, as the literals of the sources
    are. *)
Definition of_Z (i : Z) : Number := Finite (i * scale).

(** The number a decimal numeral of the value [q] denotes, in a JSON body
    or in the source. *)
Definition decimal (q : Q) : Number :=
  round (Qnum q * scale) (Z.pos (Qden q)).

(** [x / k] and [x * k] for a positive whole number [k]; the handlers
    divide by 3 and multiply by 100. *)
Definition div (x : Number) (k : positive) : Number :=
  match x with
  | Finite n => round n (Z.pos k)
  | _ => x
  end.

Definition mul (x : Number) (k : positive) : Number :=
  match x with
  | Finite n => round (n * Z.pos k) 1
  | _ => x
  end.

(** [Math.round]: the nearest integer, the larger one on a tie. *)
Definition Math_round (x : Number) : Number :=
  match x with
  | Finite n => Finite ((2 * n + scale) / (2 * scale) * scale)
  | _ => x
  end.

(** [x <= y] and [x < y]; both are false when one side is NaN. *)
Definition leb (x y : Number) : bool :=
  match x, y with
  | NaN, _ | _, NaN => false
  | Infinity true, _ => true
  | _, Infinity false => true
  | Finite a, Finite b => a <=? b
  | _, _ => false
  end.

Definition le (x y : Number) : Prop := leb x y = true.

Definition ltb (x y : Number) : bool :=
  match x, y with
  | NaN, _ | _, NaN => false
  | Infinity true, Infinity true => false
  | Infinity true, _ => true
  | Infinity false, _ => false
  | _, Infinity false => true
  | Finite a, Finite b => a <? b
  | _, _ => false
  end.

Definition lt (x y : Number) : Prop := ltb x y = true.

(** The number is a binary64 value: rounding leaves it as it is. *)
Definition binary64 (x : Number) : Prop :=
  match x with
  | Finite n => round n 1 = Finite n
  | _ => True
  end.

(** ** Numbers as strings *)

(** [10 ^ e <= n / scale], for any exponent. *)
Definition reaches (n e : Z) : bool :=
  if 0 <=? e then 10 ^ e * scale <=? n else scale <=? n * 10 ^ (- e).

(** The decimal exponent of a positive number: the [e] with
    [10 ^ e <= n / scale < 10 ^ (e + 1)], found next to its estimate from
    the binary exponent. *)
Definition exponent10 (n : Z) : Z :=
  let e := (Z.log2 n - 1074) * 30103 / 100000 in
  if reaches n (e + 1) then e + 1
  else if reaches n e then e
  else e - 1.

(** [s * 10 ^ x] in units, as a fraction. *)
Definition decimal_units (s x : Z) : Z * Z :=
  if 0 <=? x then (s * 10 ^ x * scale, 1) else (s * scale, 10 ^ (- x)).

(** The decimal [s * 10 ^ x] denotes the number of [n] units. *)
Definition reads_as (n s x : Z) : bool :=
  let (p, d) := decimal_units s x in
  match round p d with
  | Finite n' => n' =? n
  | _ => false
  end.

(** The digits [s], their number [k] and the position [n] of the decimal
    point of the shortest decimal that denotes the positive number of [n]
    units with decimal exponent [e] (step 5 of Number::toString): with [k]
    digits tried, the candidates are the two [k]-digit decimals next to
    the number, the nearer one first, the even one on a tie. *)
Fixpoint shortest (fuel : nat) (k : Z) (n e : Z) : Z * Z * Z :=
  let x := e + 1 - k in
  let (tp, td) := if 0 <=? x then (n, scale * 10 ^ x)
                  else (n * 10 ^ (- x), scale) in
  let lo := tp / td in
  let hi := lo + 1 in
  let lo_first :=
    match 2 * (tp mod td) ?= td with
    | Lt => true
    | Gt => false
    | Eq => Z.even lo
    end in
  let first := if lo_first then lo else hi in
  let second := if lo_first then hi else lo in
  let found s := if s =? 10 ^ k then (1, 1, e + 2) else (s, k, e + 1) in
  if reads_as n first x then found first
  else if reads_as n second x then found second
  else match fuel with
       | O => (first, k, e + 1)
       | S fuel' => shortest fuel' (k + 1) n e
       end.

Fixpoint zeros (n : nat) : string :=
  match n with
  | O => ""
  | S n' => "0" ++ zeros n'
  end.

(** Number::toString of a positive finite number: plain digits up to
    10^21, a fraction down to 10^-6, the exponent form otherwise. *)
Definition positive_toString (a : Z) : string :=
  let '(s, k, n) := shortest 17 1 a (exponent10 a) in
  let ds := digits s in
  if (k <=? n) && (n <=? 21) then ds ++ zeros (Z.to_nat (n - k))
  else if (0 <? n) && (n <=? 21) then
    substring 0 (Z.to_nat n) ds ++ "."
      ++ substring (Z.to_nat n) (Z.to_nat (k - n)) ds
  else if (-6 <? n) && (n <=? 0) then
    "0." ++ zeros (Z.to_nat (- n)) ++ ds
  else
    let e := n - 1 in
    let exponent := (if e <? 0 then "-" else "+") ++ digits (Z.abs e) in
    if k =? 1 then ds ++ "e" ++ exponent
    else substring 0 1 ds ++ "."
           ++ substring 1 (Z.to_nat (k - 1)) ds ++ "e" ++ exponent.

(** Number::toString, radix 10: what [x.toString()] and a template
    literal make of a number. *)
Definition Number_toString (x : Number) : string :=
  match x with
  | NaN => "NaN"
  | Infinity negative => if negative then "-Infinity" else "Infinity"
  | Finite n =>
      if n =? 0 then "0"
      else if n <? 0 then "-" ++ positive_toString (- n)
      else positive_toString n
  end.

(** [x.toFixed(2)]: the sign is split off; below 10^21 the magnitude is
    rounded to the nearest hundredth (the larger one on a tie), exactly,
    and printed with two fraction digits. *)
Definition toFixed2 (x : Number) : string :=
  match x with
  | Finite n =>
      let a := Z.abs n in
      (if n <? 0 then "-" else "")
        ++ (if 10 ^ 21 * scale <=? a then Number_toString (Finite a)
            else
              let h := (200 * a + scale) / (2 * scale) in
              digits (h / 100) ++ "." ++ two_digits (h mod 100))
  | _ => Number_toString x
  end.

(** The number a primitive float of the prover holds, to set the
    arithmetic above against the binary64 arithmetic of the kernel. *)
Definition of_float (x : float) : Number :=
  match Prim2SF x with
  | S754_zero _ => Finite 0
  | S754_infinity s => Infinity s
  | S754_nan => NaN
  | S754_finite s m e =>
      let n := Z.pos m * 2 ^ (e + 1074) in Finite (if s then - n else n)
  end.

Local Close Scope Z_scope.

(** ** Values

    A value of a JSON body that the handler does not check before it uses
    it.  A value that is neither absent, null nor a number (a string, a
    boolean, an array, an object) is given by what the three conversions
    the checkout handler applies make of it; [None] stands for the
    TypeError a conversion throws. *)
Record Coercions := mkCoercions {
  in_template : option string;
  as_number : option Number;
  own_toString : option string
}.

Inductive Value :=
| undefined
| null
| number (x : Number)
| other (c : Coercions).

(** ToString, as a template literal applies it. *)
Definition ToString (v : Value) : option string :=
  match v with
  | undefined => Some "undefined"
  | null => Some "null"
  | number x => Some (Number_toString x)
  | other c => in_template c
  end.

(** ToNumber, as the division applies it. *)
Definition ToNumber (v : Value) : option Number :=
  match v with
  | undefined => Some NaN
  | null => Some (Finite 0)
  | number x => Some x
  | other c => as_number c
  end.

(** [v.toString()]: reading the property of [undefined] or [null] throws
    a TypeError. *)
Definition toString (v : Value) : option string :=
  match v with
  | undefined => None
  | null => None
  | number x => Some (Number_toString x)
  | other c => own_toString c
  end.

End JS.

(* ===================================================================== *)
(** ** Data model *)
(* ===================================================================== *)

(** A row of the customers table (shared schema: id, email, pcnNumber,
    vehicleRegistration, stripeCustomerId, stripeSubscriptionId; the
    creation timestamp plays no part in the handlers and is left out). *)
Record Customer := mkCustomer {
  id : string;
  email : string;
  pcnNumber : string;
  vehicleRegistration : string;
  stripeCustomerId : option string;
  stripeSubscriptionId : option string
}.

(** The argument of [storage.createCustomer]. *)
Record InsertCustomer := mkInsert {
  ins_email : string;
  ins_pcnNumber : string;
  ins_vehicleRegistration : string
}.

(** [req.body] of a provisioning request.  The three identifying fields
    are the strings the storage contract is stated for.  [penaltyAmount] is
    read by the checkout handler alone, which does not check it: it is any
    value, or absent ([undefined]). *)
Record RequestBody := mkBody {
  body_email : string;
  body_pcnNumber : string;
  body_vehicleRegistration : string;
  body_penaltyAmount : JS.Value
}.

(** Errors, after the taxonomy of the specification.  [ProcessorError]
    carries the message reported by the processor.  [TypeError] is the
    error of the language itself, thrown by a conversion of a value. *)
Inductive Error :=
| ValidationError
| ConflictError
| InvariantViolation
| NotFoundError
| ProcessorError (message : string)
| TypeError.

Definition Metadata := list (string * string).

(** Value stored under a metadata key. *)
Fixpoint meta_get (k : string) (m : Metadata) : option string :=
  match m with
  | [] => None
  | (k', v) :: m' => if k' =? k then Some v else meta_get k m'
  end.

(* ===================================================================== *)
(** ** Customer Registry (the [storage] object) *)
(* ===================================================================== *)

Module Storage.

(** The customers table: its rows, oldest first. *)
Definition Registry := list Customer.

(** Number of records held for an email. *)
Definition count (r : Registry) (e : string) : nat :=
  length (filter (fun c => email c =? e) r).

(** Modelled from the spec: [storage.getCustomerByEmail] (module
    ./storage is not part of the sources).  "findByEmail(email) ->
    Customer | absent: pure lookup, no side effects", exact match on the
    email. *)
Definition getCustomerByEmail (r : Registry) (e : string) : option Customer :=
  find (fun c => email c =? e) r.

(** The row of an id, as the update looks it up. *)
Definition getCustomer (r : Registry) (i : string) : option Customer :=
  find (fun c => id c =? i) r.

(** Modelled from the spec: the identifier the Registry assigns at
    creation ("opaque unique identifier, assigned at creation").  The
    model takes a string longer than every stored id, hence different
    from each of them. *)
Definition fresh_id (r : Registry) : string :=
  String "c" (String.concat "" (map id r)).

(** Modelled from the spec: [storage.createCustomer].  "create(email,
    pcnNumber, vehicleRegistration) -> Customer: fails with ConflictError
    if a create for the same email already succeeded"; the new record has
    no processor identifiers yet. *)
Definition createCustomer (r : Registry) (ins : InsertCustomer)
  : Error + Customer * Registry :=
  match getCustomerByEmail r (ins_email ins) with
  | Some _ => inl ConflictError
  | None =>
      let c := {| id := fresh_id r;
                  email := ins_email ins;
                  pcnNumber := ins_pcnNumber ins;
                  vehicleRegistration := ins_vehicleRegistration ins;
                  stripeCustomerId := None;
                  stripeSubscriptionId := None |} in
      inr (c, (r ++ [c])%list)
  end.

(** The record [c] with the processor identifiers attached; an omitted
    subscription id leaves the stored one in place. *)
Definition attach (c : Customer) (scid : string) (sub : option string)
  : Customer :=
  {| id := id c;
     email := email c;
     pcnNumber := pcnNumber c;
     vehicleRegistration := vehicleRegistration c;
     stripeCustomerId := Some scid;
     stripeSubscriptionId :=
       match sub with Some s => Some s | None => stripeSubscriptionId c end |}.

(** The update applied to the rows of the given id. *)
Definition attached (i scid : string) (sub : option string) (x : Customer)
  : Customer :=
  if id x =? i then attach x scid sub else x.

(** Modelled from the spec: [storage.updateCustomerStripeInfo].
    "attachProcessorIds(customerId, processorCustomerId,
    processorSubscriptionId?) -> Customer: idempotent; calling it with a
    different processorCustomerId than already stored is a programming
    error (InvariantViolation) and must be rejected rather than silently
    overwritten".  An unknown customer id is reported as not found. *)
Definition updateCustomerStripeInfo
    (r : Registry) (i scid : string) (sub : option string)
  : Error + Customer * Registry :=
  match getCustomer r i with
  | None => inl NotFoundError
  | Some c =>
      let ok := inr (attach c scid sub, map (attached i scid sub) r) in
      match stripeCustomerId c with
      | None => ok
      | Some old => if old =? scid then ok else inl InvariantViolation
      end
  end.

(** Registry invariant: identifiers and emails are unique keys. *)
Definition wf (r : Registry) : Prop :=
  NoDup (map id r) /\ NoDup (map email r).

(** [c] is the record held for the email [e], the one its id leads to. *)
Definition holds (r : Registry) (e : string) (c : Customer) : Prop :=
  getCustomerByEmail r e = Some c /\ getCustomer r (id c) = Some c.

End Storage.

(* ===================================================================== *)
(** ** Processor Gateway (the [stripe] client) *)
(* ===================================================================== *)

(** [recurring] of a price. *)
Record Recurring := mkRecurring {
  interval : string;
  interval_count : option Z
}.

(** A phase of a subscription schedule: the prices of its items and the
    number of billing iterations. *)
Record Phase := mkPhase {
  phase_items : list string;
  iterations : Z
}.

(** The remote calls the handlers issue, with the parameters the source
    passes. *)
Inductive StripeCall :=
| customers_retrieve (customer : string)
| customers_create (email : string) (metadata : Metadata)
| products_create (name description : string)
| prices_create (unit_amount : JS.Number) (currency : string)
    (recurring : Recurring) (product : string)
| subscriptions_create (customer : string) (items : list string)
    (payment_behavior save_default_payment_method : string)
    (expand : list string) (metadata : Metadata) (cancel_at : Z)
| subscriptionSchedules_create (customer start_date end_behavior : string)
    (metadata : Metadata) (phases : list Phase)
| checkout_sessions_create (mode customer : string)
    (subscription : option string) (customer_update_name : string)
    (success_url cancel_url : string) (metadata : Metadata).

(** What the handlers read of an object returned by the processor: its
    [id], [latest_invoice.payment_intent.client_secret] of a subscription,
    [subscription] of a schedule, [url] of a checkout session. *)
Record StripeObject := mkObject {
  obj_id : string;
  client_secret : option string;
  obj_subscription : option string;
  url : option string
}.

Inductive StripeReply :=
| SOk (o : StripeObject)
| SErr (message : string).

(** The processor is an external service: any state space and any
    transition function answering the calls.  The only thing assumed of it
    is built into [Gateway.call] below: a retrieval that succeeds
    returns the object of the requested id. *)
Record Processor := mkProcessor {
  PState : Type;
  stripe : PState -> StripeCall -> StripeReply * PState
}.

Module Gateway.

Definition with_id (o : StripeObject) (i : string) : StripeObject :=
  {| obj_id := i;
     client_secret := client_secret o;
     obj_subscription := obj_subscription o;
     url := url o |}.

Definition call (P : Processor) (s : PState P) (c : StripeCall)
  : StripeReply * PState P :=
  match stripe P s c with
  | (SOk o, s') =>
      match c with
      | customers_retrieve i => (SOk (with_id o i), s')
      | _ => (SOk o, s')
      end
  | (SErr m, s') => (SErr m, s')
  end.

(** The metadata a call attaches to the object it creates, if any. *)
Definition metadata_of (c : StripeCall) : option Metadata :=
  match c with
  | customers_retrieve _ => None
  | customers_create _ m => Some m
  | products_create _ _ => None
  | prices_create _ _ _ _ => None
  | subscriptions_create _ _ _ _ _ m _ => Some m
  | subscriptionSchedules_create _ _ _ m _ => Some m
  | checkout_sessions_create _ _ _ _ _ _ m => Some m
  end.

(** Calls that create a processor object. *)
Definition creates (c : StripeCall) : bool :=
  match c with
  | customers_retrieve _ => false
  | _ => true
  end.

(** Calls that build the charge scheme: product, price, subscription or
    subscription schedule. *)
Definition charge_scheme (c : StripeCall) : bool :=
  match c with
  | products_create _ _ | prices_create _ _ _ _
  | subscriptions_create _ _ _ _ _ _ _
  | subscriptionSchedules_create _ _ _ _ _ => true
  | _ => false
  end.

End Gateway.

(* ===================================================================== *)
(** ** Handlers as programs over awaited calls *)
(* ===================================================================== *)

(** The calls a handler awaits: the three storage operations and the
    processor calls. *)
Inductive Call :=
| GetCustomerByEmail (email : string)
| CreateCustomer (ins : InsertCustomer)
| UpdateCustomerStripeInfo (id stripeCustomerId : string)
    (stripeSubscriptionId : option string)
| Stripe (c : StripeCall).

(** The type of the value an awaited call resolves to. *)
Definition Answer (c : Call) : Type :=
  match c with
  | GetCustomerByEmail _ => option Customer
  | CreateCustomer _ => Customer
  | UpdateCustomerStripeInfo _ _ _ => Customer
  | Stripe _ => StripeObject
  end.

(** The body of a [try] block: it returns, throws, or awaits a call and
    goes on with its value.  A rejected call throws. *)
Inductive Prog (R : Type) : Type :=
| Ret (r : R)
| Throw (e : Error)
| Await (c : Call) (k : Answer c -> Prog R).

Arguments Ret {R} r.
Arguments Throw {R} e.
Arguments Await {R} c k.

Fixpoint bind {A B : Type} (p : Prog A) (f : A -> Prog B) : Prog B :=
  match p with
  | Ret a => f a
  | Throw e => Throw e
  | Await c k => Await c (fun x => bind (k x) f)
  end.

(** The awaited calls as programs. *)
Definition storage_getCustomerByEmail (email : string)
  : Prog (option Customer) :=
  Await (GetCustomerByEmail email) Ret.

Definition storage_createCustomer (ins : InsertCustomer) : Prog Customer :=
  Await (CreateCustomer ins) Ret.

Definition storage_updateCustomerStripeInfo
    (id stripeCustomerId : string) (stripeSubscriptionId : option string)
  : Prog Customer :=
  Await (UpdateCustomerStripeInfo id stripeCustomerId stripeSubscriptionId) Ret.

Definition stripe_request (c : StripeCall) : Prog StripeObject :=
  Await (Stripe c) Ret.

(** A conversion of a value, which throws a TypeError when it fails. *)
Definition coerce {A : Type} (r : option A) : Prog A :=
  match r with
  | Some a => Ret a
  | None => Throw TypeError
  end.

Declare Scope prog_scope.
Delimit Scope prog_scope with prog.
Notation "x <- p ;; q" := (bind p (fun x => q))
  (at level 61, p at next level, right associativity) : prog_scope.
Notation "' pat <- p ;; q" := (bind p (fun x => match x with pat => q end))
  (at level 61, pat pattern, p at next level, right associativity) : prog_scope.

(** How an awaited call settled: with its value, or with the error
    thrown. *)
Inductive Reply :=
| RLookup (c : option Customer)
| RCustomer (c : Customer)
| RObject (o : StripeObject)
| RThrown (e : Error).

(** What a run leaves in the call log: the call, how it settled, and the
    registry as it stood when the call was issued (kept for the statements
    about what has been stored by then; the handlers never read it). *)
Record Entry := mkEntry {
  call : Call;
  reply : Reply;
  stored : Storage.Registry
}.

Definition reply_of (c : Call) : Answer c -> Reply :=
  match c with
  | GetCustomerByEmail _ => RLookup
  | CreateCustomer _ => RCustomer
  | UpdateCustomerStripeInfo _ _ _ => RCustomer
  | Stripe _ => RObject
  end.

(** The JSON body of a successful response. *)
Inductive Json :=
| SubscriptionJson (clientSecret : option string)
    (subscriptionId customerId : string)
| CheckoutJson (sessionId : string) (url : option string)
    (customerId : string).

(** [res.json(body)], or [res.status(400).json({ error: error.message })]
    for the error caught. *)
Inductive Response :=
| Status200 (body : Json)
| Status400 (error : Error).

Definition respond (r : Error + Json) : Response :=
  match r with
  | inr body => Status200 body
  | inl e => Status400 e
  end.

Section Execution.

Context {P : Processor}.

(** The two stores a run acts on. *)
Record World := mkWorld {
  registry : Storage.Registry;
  processor : PState P
}.

Definition lift_storage (w : World) (r : Error + Customer * Storage.Registry)
  : (Error + Customer) * World :=
  match r with
  | inl e => (inl e, w)
  | inr (c, r') => (inr c, {| registry := r'; processor := processor w |})
  end.

(** One awaited call against the world. *)
Definition perform (c : Call) (w : World) : (Error + Answer c) * World :=
  match c return (Error + Answer c) * World with
  | GetCustomerByEmail e =>
      (inr (Storage.getCustomerByEmail (registry w) e), w)
  | CreateCustomer ins =>
      lift_storage w (Storage.createCustomer (registry w) ins)
  | UpdateCustomerStripeInfo i scid sub =>
      lift_storage w (Storage.updateCustomerStripeInfo (registry w) i scid sub)
  | Stripe sc =>
      match Gateway.call P (processor w) sc with
      | (SOk o, s') =>
          (inr o, {| registry := registry w; processor := s' |})
      | (SErr m, s') =>
          (inl (ProcessorError m), {| registry := registry w; processor := s' |})
      end
  end.

Definition entry_of (c : Call) (a : Error + Answer c) (w : World) : Entry :=
  {| call := c;
     reply := match a with inr x => reply_of c x | inl e => RThrown e end;
     stored := registry w |}.

(** A handler run to its end: the value returned or the error caught,
    the world reached and the calls made, in order. *)
Fixpoint run {R : Type} (p : Prog R) (w : World)
  : (Error + R) * World * list Entry :=
  match p with
  | Ret r => (inr r, w, [])
  | Throw e => (inl e, w, [])
  | Await c k =>
      match perform c w with
      | (inr x, w') =>
          let '(res, w'', log) := run (k x) w' in
          (res, w'', entry_of c (inr x) w :: log)
      | (inl e, w') => (inl e, w', [entry_of c (inl e) w])
      end
  end.

(** One step of a handler: up to and including its next awaited call. *)
Definition step {R : Type} (p : Prog R) (w : World) : Prog R * World :=
  match p with
  | Await c k =>
      match perform c w with
      | (inr x, w') => (k x, w')
      | (inl e, w') => (Throw e, w')
      end
  | _ => (p, w)
  end.

(** Several requests in flight at once.  The schedule names, step by
    step, the request that makes the next step. *)
Fixpoint step_nth {R : Type} (i : nat) (ps : list (Prog R)) (w : World)
  {struct ps} : list (Prog R) * World :=
  match ps with
  | [] => ([], w)
  | p :: ps' =>
      match i with
      | O => let (p', w') := step p w in (p' :: ps', w')
      | S i' => let (ps'', w') := step_nth i' ps' w in (p :: ps'', w')
      end
  end.

(** The requests run to their ends, one after the other. *)
Fixpoint run_all {R : Type} (ps : list (Prog R)) (w : World)
  : list (Error + R) * World :=
  match ps with
  | [] => ([], w)
  | p :: ps' =>
      let '(a, w1, _) := run p w in
      let (rs, w2) := run_all ps' w1 in
      (a :: rs, w2)
  end.

(** The requests interleaved after the schedule; when it is used up,
    what is left of each request runs to its end. *)
Fixpoint race {R : Type} (schedule : list nat) (ps : list (Prog R))
    (w : World) : list (Error + R) * World :=
  match schedule with
  | [] => run_all ps w
  | i :: s => let (ps', w') := step_nth i ps w in race s ps' w'
  end.

End Execution.

Arguments World P : clear implicits.

(* ===================================================================== *)
(** ** The provisioning handlers *)
(* ===================================================================== *)

Local Open Scope prog_scope.

(** Modelled from the spec: [insertCustomerSchema.parse] (module
    @shared/schema is not part of the sources).  "Input validation
    (non-empty email/pcnNumber/vehicleRegistration, penaltyAmount > 0)
    happens before this transition and fails fast with ValidationError
    otherwise".  Of this sentence the parse takes the three fields, and
    not the amount: the schema is the insert schema of the customers
    table, whose fields the sources list (id, email, pcnNumber,
    vehicleRegistration, stripeCustomerId, stripeSubscriptionId,
    createdAt), the handler destructures these three fields of the result,
    and the portal of this route posts no penaltyAmount.  The parsed object
    has the three fields and nothing else of the body. *)
Definition insertCustomerSchema_parse (body : RequestBody)
  : Prog InsertCustomer :=
  if (body_email body =? "") || (body_pcnNumber body =? "")
     || (body_vehicleRegistration body =? "")
  then Throw ValidationError
  else Ret {| ins_email := body_email body;
              ins_pcnNumber := body_pcnNumber body;
              ins_vehicleRegistration := body_vehicleRegistration body |}.

(** Both handlers open with the same statements: look the customer up by
    email and create the record when there is none. *)
Definition resolveCustomer (email' pcnNumber' vehicleRegistration' : string)
  : Prog Customer :=
  found <- storage_getCustomerByEmail email' ;;
  match found with
  | Some customer => Ret customer
  | None =>
      storage_createCustomer {| ins_email := email';
                                ins_pcnNumber := pcnNumber';
                                ins_vehicleRegistration := vehicleRegistration' |}
  end.

(** Both handlers go on with the same statements: retrieve the processor
    customer when the record has a (truthy) [stripeCustomerId], otherwise
    create one and store its id on the record.  The result is the pair of
    variables [stripeCustomer] and [customer]. *)
Definition ensureStripeCustomer (customer : Customer)
  : Prog (StripeObject * Customer) :=
  match stripeCustomerId customer with
  | Some sid =>
      if JS.truthy (Some sid) then
        stripeCustomer <- stripe_request (customers_retrieve sid) ;;
        Ret (stripeCustomer, customer)
      else
        stripeCustomer <- stripe_request (customers_create (email customer)
          [("pcnNumber", pcnNumber customer);
           ("vehicleRegistration", vehicleRegistration customer)]) ;;
        customer' <- storage_updateCustomerStripeInfo (id customer)
                      (obj_id stripeCustomer) None ;;
        Ret (stripeCustomer, customer')
  | None =>
      stripeCustomer <- stripe_request (customers_create (email customer)
        [("pcnNumber", pcnNumber customer);
         ("vehicleRegistration", vehicleRegistration customer)]) ;;
      customer' <- storage_updateCustomerStripeInfo (id customer)
                    (obj_id stripeCustomer) None ;;
      Ret (stripeCustomer, customer')
  end.

(** [POST /api/create-subscription] (server/routes.ts).  [now] is the value
    of [Date.now()], in milliseconds, read when the subscription is
    requested. *)
Definition create_subscription (now : Z) (body : RequestBody) : Prog Json :=
  parsed <- insertCustomerSchema_parse body ;;
  customer <- resolveCustomer (ins_email parsed) (ins_pcnNumber parsed)
                (ins_vehicleRegistration parsed) ;;
  '(stripeCustomer, customer) <- ensureStripeCustomer customer ;;
  product <- stripe_request (products_create
    ("PCN Payment Plan - " ++ ins_pcnNumber parsed)
    ("Recurring payment plan for PCN " ++ ins_pcnNumber parsed
       ++ ", Vehicle " ++ ins_vehicleRegistration parsed)) ;;
  price <- stripe_request (prices_create (JS.of_Z 3000) "gbp"
    {| interval := "month"; interval_count := Some 1%Z |}
    (obj_id product)) ;;
  subscription <- stripe_request (subscriptions_create
    (obj_id stripeCustomer)
    [obj_id price]
    "default_incomplete"
    "on_subscription"
    ["latest_invoice.payment_intent"]
    [("pcnNumber", pcnNumber customer);
     ("vehicleRegistration", vehicleRegistration customer);
     ("totalPayments", "3")]
    (now / 1000 + 90 * 24 * 60 * 60)%Z) ;;
  _ <- storage_updateCustomerStripeInfo (id customer) (obj_id stripeCustomer)
         (Some (obj_id subscription)) ;;
  Ret (SubscriptionJson (client_secret subscription)
         (obj_id subscription) (id customer)).

(** The environment variables read by the checkout handler. *)
Record Env := mkEnv {
  CUSTOM_DOMAIN_URL : option string;
  WEBSITE_HOSTNAME : option string;
  REPL_SLUG : option string;
  REPL_OWNER : option string;
  WEBSITE_URL : option string
}.

(** The base of the redirect targets: the first truthy one of the custom
    domain, the host name, the repl address and the website URL, else the
    local default. *)
Definition domainURL (env : Env) : string :=
  match
    JS.or_else (CUSTOM_DOMAIN_URL env)
      (JS.or_else
         (match WEBSITE_HOSTNAME env with
          | Some h => if JS.truthy (Some h) then Some ("https://" ++ h)
                      else Some h
          | None => None
          end)
         (JS.or_else
            (match REPL_SLUG env, REPL_OWNER env with
             | Some s, Some o =>
                 if JS.truthy (Some s) then
                   if JS.truthy (Some o)
                   then Some ("https://" ++ s ++ "." ++ o ++ ".repl.co")
                   else Some o
                 else Some s
             | Some s, None => if JS.truthy (Some s) then None else Some s
             | None, _ => None
             end)
            (WEBSITE_URL env)))
  with
  | Some u => if JS.truthy (Some u) then u else "http://localhost:5000"
  | None => "http://localhost:5000"
  end.

(** The unit amount of the price of the checkout handler:
    [Math.round((penaltyAmount / 3) * 100)], in binary64 arithmetic. *)
Definition monthlyAmountInPence (penaltyAmount : JS.Number) : JS.Number :=
  JS.Math_round (JS.mul (JS.div penaltyAmount 3) 100).

(** [POST /api/create-checkout-session], the version with a subscription
    schedule.  The body is destructured as it comes: nothing is parsed or
    checked before the registry is asked for the customer.  The penalty
    amount is converted where the source uses it: to a string by the
    template literal of the product description, to a number by each
    division, and by its own [toString] for the metadata; a conversion
    that throws ends the request with what has been done so far. *)
Definition create_checkout_session (env : Env) (body : RequestBody)
  : Prog Json :=
  let penaltyAmount := body_penaltyAmount body in
  customer <- resolveCustomer (body_email body) (body_pcnNumber body)
                (body_vehicleRegistration body) ;;
  '(stripeCustomer, customer) <- ensureStripeCustomer customer ;;
  total <- coerce (JS.ToString penaltyAmount) ;;
  product <- stripe_request (products_create
    ("PCN Payment Plan - " ++ body_pcnNumber body)
    ("Recurring payment plan for PCN " ++ body_pcnNumber body
       ++ ", Vehicle " ++ body_vehicleRegistration body
       ++ ", Total: £" ++ total)) ;;
  amount <- coerce (JS.ToNumber penaltyAmount) ;;
  price <- stripe_request (prices_create (monthlyAmountInPence amount)
    "gbp"
    {| interval := "month"; interval_count := None |}
    (obj_id product)) ;;
  text <- coerce (JS.toString penaltyAmount) ;;
  amount <- coerce (JS.ToNumber penaltyAmount) ;;
  schedule <- stripe_request (subscriptionSchedules_create
    (obj_id stripeCustomer)
    "now"
    "cancel"
    [("pcnNumber", pcnNumber customer);
     ("vehicleRegistration", vehicleRegistration customer);
     ("totalPayments", "3");
     ("penaltyAmount", text);
     ("monthlyAmount", JS.toFixed2 (JS.div amount 3))]
    [{| phase_items := [obj_id price]; iterations := 3 |}]) ;;
  let base := domainURL env in
  text <- coerce (JS.toString penaltyAmount) ;;
  amount <- coerce (JS.ToNumber penaltyAmount) ;;
  session <- stripe_request (checkout_sessions_create
    "subscription"
    (obj_id stripeCustomer)
    (obj_subscription schedule)
    "auto"
    (base ++ "/payment-success?session_id={CHECKOUT_SESSION_ID}")
    (base ++ "/")
    [("customerId", id customer);
     ("pcnNumber", pcnNumber customer);
     ("vehicleRegistration", vehicleRegistration customer);
     ("penaltyAmount", text);
     ("monthlyAmount", JS.toFixed2 (JS.div amount 3))]) ;;
  Ret (CheckoutJson (obj_id session) (url session) (id customer)).

(** The two routes, with what each reads besides the request body. *)
Inductive Route :=
| CreateSubscription (now : Z)
| CreateCheckoutSession (env : Env).

Definition handler (route : Route) (body : RequestBody) : Prog Json :=
  match route with
  | CreateSubscription now => create_subscription now body
  | CreateCheckoutSession env => create_checkout_session env body
  end.

(** The three identifying fields are non-empty. *)
Definition identified (body : RequestBody) : bool :=
  negb ((body_email body =? "") || (body_pcnNumber body =? "")
        || (body_vehicleRegistration body =? "")).

(** The requests a route lets through to identity resolution. *)
Definition accepted (route : Route) (body : RequestBody) : bool :=
  match route with
  | CreateSubscription _ => identified body
  | CreateCheckoutSession _ => true
  end.

Local Close Scope prog_scope.

(* ===================================================================== *)
(** ** A processor to run the handlers against *)
(* ===================================================================== *)

(** A stand-in for the processor's test mode: every call succeeds, and
    the objects are numbered in the order of their creation. *)
Module TestMode.

Definition object_id (prefix : string) (n : nat) : string :=
  prefix ++ NilZero.string_of_uint (Nat.to_uint n).

Definition answer (n : nat) (c : StripeCall) : StripeObject :=
  match c with
  | customers_retrieve i => mkObject i None None None
  | customers_create _ _ => mkObject (object_id "cus_" n) None None None
  | products_create _ _ => mkObject (object_id "prod_" n) None None None
  | prices_create _ _ _ _ => mkObject (object_id "price_" n) None None None
  | subscriptions_create _ _ _ _ _ _ _ =>
      mkObject (object_id "sub_" n)
        (Some (object_id "pi_" n ++ "_secret")) None None
  | subscriptionSchedules_create _ _ _ _ _ =>
      mkObject (object_id "sub_sched_" n) None
        (Some (object_id "sub_" n)) None
  | checkout_sessions_create _ _ _ _ _ _ _ =>
      mkObject (object_id "cs_test_" n) None None
        (Some ("https://checkout.stripe.com/c/pay/" ++ object_id "cs_test_" n))
  end.

Definition gateway : Processor :=
  {| PState := nat;
     stripe := fun n c => (SOk (answer n c), S n) |}.

(** A fresh deployment: no customers, nothing created yet. *)
Definition fresh : World gateway :=
  mkWorld (P := gateway) [] 0%nat.

Definition no_env : Env := mkEnv None None None None None.

(** A deployment that already knows the customer of the scenarios, under
    another PCN and vehicle, with a processor customer attached. *)
Definition returning : World gateway :=
  mkWorld (P := gateway)
    [{| id := "c";
        email := "a@x.com";
        pcnNumber := "PCN0";
        vehicleRegistration := "XY34FGH";
        stripeCustomerId := Some "cus_9";
        stripeSubscriptionId := None |}]
    0%nat.

End TestMode.

(** The request of the end-to-end scenarios, with the amount written as a
    decimal numeral. *)
Definition request (penaltyAmount : Q) : RequestBody :=
  {| body_email := "a@x.com";
     body_pcnNumber := "PCN1";
     body_vehicleRegistration := "AB12CDE";
     body_penaltyAmount := JS.number (JS.decimal penaltyAmount) |}.


(** The same request without an email. *)
Definition anonymous : RequestBody :=
  {| body_email := "";
     body_pcnNumber := "PCN1";
     body_vehicleRegistration := "AB12CDE";
     body_penaltyAmount := JS.number (JS.decimal 90) |}.

Definition outcome {P R} (x : (Error + R) * World P * list Entry) : Error + R :=
  fst (fst x).

Definition world_of {P R} (x : (Error + R) * World P * list Entry) : World P :=
  snd (fst x).

Definition log_of {P R} (x : (Error + R) * World P * list Entry) : list Entry :=
  snd x.

(** The body with another value for the penalty amount. *)
Definition with_penaltyAmount (body : RequestBody) (amount : JS.Value)
  : RequestBody :=
  {| body_email := body_email body;
     body_pcnNumber := body_pcnNumber body;
     body_vehicleRegistration := body_vehicleRegistration body;
     body_penaltyAmount := amount |}.

(* ===================================================================== *)
(** ** Properties of call logs *)
(* ===================================================================== *)

(** The entry records the creation of the processor customer [sid]. *)
Definition created_customer (e : Entry) (sid : string) : Prop :=
  exists em md o,
    call e = Stripe (customers_create em md)
    /\ reply e = RObject o /\ obj_id o = sid.

(** The entry is a call that builds the charge scheme. *)
Definition charge_scheme_call (e : Entry) : Prop :=
  exists sc, call e = Stripe sc /\ Gateway.charge_scheme sc = true.

(** When the call of the entry was issued, the record of [email] carried
    the processor customer id [sid]. *)
Definition persisted (email sid : string) (e : Entry) : Prop :=
  exists c,
    Storage.getCustomerByEmail (stored e) email = Some c
    /\ stripeCustomerId c = Some sid.

(** The entry neither creates a processor customer nor attaches an id
    other than [sid]. *)
Definition keeps_customer (sid : string) (e : Entry) : Prop :=
  match call e with
  | Stripe (customers_create _ _) => False
  | UpdateCustomerStripeInfo _ scid _ => scid = sid
  | _ => True
  end.

(** The metadata asked for by C7 on every created object. *)
Definition plan_metadata (m : Metadata) : bool :=
  match meta_get "pcnNumber" m, meta_get "vehicleRegistration" m,
        meta_get "totalPayments" m with
  | Some _, Some _, Some n => n =? "3"
  | _, _, _ => false
  end.

Definition carries_plan_metadata (e : Entry) : bool :=
  match call e with
  | Stripe sc =>
      if Gateway.creates sc then
        match Gateway.metadata_of sc with
        | Some m => plan_metadata m
        | None => false
        end
      else true
  | _ => true
  end.

(** The metadata each call is built with, for the customer record [c] and
    the penalty amount [A] of the body: the schedule and the session carry
    what [A.toString()] and [(A / 3).toFixed(2)] evaluate to. *)
Definition metadata_as_built (c : Customer) (A : JS.Value) (e : Entry)
  : Prop :=
  match call e with
  | Stripe (customers_create _ m) =>
      m = [("pcnNumber", pcnNumber c);
           ("vehicleRegistration", vehicleRegistration c)]
  | Stripe (products_create n d) =>
      Gateway.metadata_of (products_create n d) = None
  | Stripe (prices_create u cur rc p) =>
      Gateway.metadata_of (prices_create u cur rc p) = None
  | Stripe (subscriptions_create _ _ _ _ _ m _) =>
      m = [("pcnNumber", pcnNumber c);
           ("vehicleRegistration", vehicleRegistration c);
           ("totalPayments", "3")]
  | Stripe (subscriptionSchedules_create _ _ _ m _) =>
      exists text amount,
        JS.toString A = Some text
        /\ JS.ToNumber A = Some amount
        /\ m = [("pcnNumber", pcnNumber c);
                ("vehicleRegistration", vehicleRegistration c);
                ("totalPayments", "3");
                ("penaltyAmount", text);
                ("monthlyAmount", JS.toFixed2 (JS.div amount 3))]
  | Stripe (checkout_sessions_create _ _ _ _ _ _ m) =>
      exists text amount,
        JS.toString A = Some text
        /\ JS.ToNumber A = Some amount
        /\ m = [("customerId", id c);
                ("pcnNumber", pcnNumber c);
                ("vehicleRegistration", vehicleRegistration c);
                ("penaltyAmount", text);
                ("monthlyAmount", JS.toFixed2 (JS.div amount 3))]
  | _ => True
  end.


(** The price and the schedule of the checkout route, for the penalty
    amount [A] of the body. *)
Definition scheduled_price (A : JS.Value) (e : Entry) : Prop :=
  match call e with
  | Stripe (prices_create u cur rc _) =>
      (exists amount,
          JS.ToNumber A = Some amount /\ u = monthlyAmountInPence amount)
      /\ cur = "gbp" /\ interval rc = "month"
  | Stripe (subscriptionSchedules_create _ _ end_behavior _ phases) =>
      end_behavior = "cancel"
      /\ exists price, phases = [{| phase_items := [price]; iterations := 3 |}]
  | _ => True
  end.

(** The unit amount of the price a call of the log created under the id
    [price], if there is one. *)
Fixpoint unit_amount_of (price : string) (log : list Entry)
  : option JS.Number :=
  match log with
  | [] => None
  | e :: rest =>
      match call e, reply e with
      | Stripe (prices_create u _ _ _), RObject o =>
          if obj_id o =? price then Some u else unit_amount_of price rest
      | _, _ => unit_amount_of price rest
      end
  end.

(** The unit amounts of the prices of the items of a plan, [None] for a
    price the request did not create. *)
Definition prices_of (log : list Entry) (items : list string)
  : list (option JS.Number) :=
  map (fun item => unit_amount_of item log) items.

(** The instalments the schedules created in a log bill: for each phase
    of a schedule, the prices of its items, once per iteration. *)
Definition instalments (log : list Entry) : list (option JS.Number) :=
  flat_map
    (fun e =>
       match call e, reply e with
       | Stripe (subscriptionSchedules_create _ _ _ _ phases), RObject _ =>
           flat_map
             (fun phase =>
                List.concat (repeat (prices_of log (phase_items phase))
                               (Z.to_nat (iterations phase))))
             phases
       | _, _ => []
       end)
    log.

(** What the subscriptions created in a log charge per period: the prices
    of their items. *)
Definition charges (log : list Entry) : list (option JS.Number) :=
  flat_map
    (fun e =>
       match call e, reply e with
       | Stripe (subscriptions_create _ items _ _ _ _ _), RObject _ =>
           prices_of log items
       | _, _ => []
       end)
    log.


(** No storage update of the entry sets a subscription id. *)
Definition sets_no_subscription (e : Entry) : Prop :=
  match call e with
  | UpdateCustomerStripeInfo _ _ sub => sub = None
  | _ => True
  end.

(** What the direct route does with a customer already on record: no
    record is created, the subscription carries the stored values, the
    product those of the request. *)
Definition uses_stored_fields (c : Customer) (body : RequestBody) (e : Entry)
  : Prop :=
  match call e with
  | CreateCustomer _ => False
  | Stripe (subscriptions_create _ _ _ _ _ m _) =>
      meta_get "pcnNumber" m = Some (pcnNumber c)
      /\ meta_get "vehicleRegistration" m = Some (vehicleRegistration c)
  | Stripe (products_create name description) =>
      name = "PCN Payment Plan - " ++ body_pcnNumber body
      /\ description
         = "Recurring payment plan for PCN " ++ body_pcnNumber body
             ++ ", Vehicle " ++ body_vehicleRegistration body
  | _ => True
  end.

(* ===================================================================== *)
(** ** Identity resolution under interleaving *)
(* ===================================================================== *)

(** The registry has a record for the email. *)
Definition present {P : Processor} (e : string) (w : World P) : Prop :=
  In e (map email (registry w)).

(** The request has still to resolve the customer of the email: it is
    about to look it up and to create it when absent, or about to create
    it. *)
Fixpoint pending (e : string) {R : Type} (p : Prog R) : Prop :=
  match p with
  | Await c k =>
      match c return (Answer c -> Prog R) -> Prop with
      | GetCustomerByEmail e' => fun k => e' = e /\ pending e (k None)
      | CreateCustomer ins => fun _ => ins_email ins = e
      | _ => fun _ => False
      end k
  | _ => False
  end.

(** Either way the email ends up with a record. *)
Definition resolving {P : Processor} {R : Type} (e : string) (w : World P)
    (p : Prog R) : Prop :=
  present e w \/ pending e p.


(* ===================================================================== *)
(** ** The shape of a run *)
(* ===================================================================== *)

(** The calls of the handlers, by kind. *)
Inductive Kind :=
| KLookup | KCreateRecord | KAttach
| KRetrieve | KCustomer | KProduct | KPrice
| KSubscription | KSchedule | KSession.

Definition kind (e : Entry) : Kind :=
  match call e with
  | GetCustomerByEmail _ => KLookup
  | CreateCustomer _ => KCreateRecord
  | UpdateCustomerStripeInfo _ _ _ => KAttach
  | Stripe (customers_retrieve _) => KRetrieve
  | Stripe (customers_create _ _) => KCustomer
  | Stripe (products_create _ _) => KProduct
  | Stripe (prices_create _ _ _ _) => KPrice
  | Stripe (subscriptions_create _ _ _ _ _ _ _) => KSubscription
  | Stripe (subscriptionSchedules_create _ _ _ _ _) => KSchedule
  | Stripe (checkout_sessions_create _ _ _ _ _ _ _) => KSession
  end.

(** The calls of a request that meets no failure, in order: for a customer
    on record with a processor customer, for one on record without, and
    for a new one. *)
Definition call_sequences (route : Route) : list (list Kind) :=
  let charge :=
    match route with
    | CreateSubscription _ => [KProduct; KPrice; KSubscription; KAttach]
    | CreateCheckoutSession _ => [KProduct; KPrice; KSchedule; KSession]
    end in
  [ ([KLookup; KRetrieve] ++ charge)%list;
    ([KLookup; KCustomer; KAttach] ++ charge)%list;
    ([KLookup; KCreateRecord; KCustomer; KAttach] ++ charge)%list ].


(** The id of the object a processor call of the entry returned. *)
Definition returned (e : Entry) : option StripeObject :=
  match call e, reply e with
  | Stripe _, RObject o => Some o
  | _, _ => None
  end.

(** How the ids returned by earlier calls reach later ones: the processor
    customer retrieved or created is the customer of the subscription, the
    schedule and the session and the id handed to the storage; the product
    created is the product of the price; the price created is the one item
    of the subscription and of the single three-iteration phase of the
    schedule; the subscription of the schedule is the one of the session;
    the subscription created is the one handed to the storage. *)
Definition wired (a b : Entry) : Prop :=
  match returned a with
  | None => True
  | Some o =>
      match call a, call b with
      | Stripe (customers_retrieve _), Stripe (subscriptions_create cus _ _ _ _ _ _)
      | Stripe (customers_create _ _), Stripe (subscriptions_create cus _ _ _ _ _ _)
      | Stripe (customers_retrieve _), Stripe (subscriptionSchedules_create cus _ _ _ _)
      | Stripe (customers_create _ _), Stripe (subscriptionSchedules_create cus _ _ _ _)
      | Stripe (customers_retrieve _), Stripe (checkout_sessions_create _ cus _ _ _ _ _)
      | Stripe (customers_create _ _), Stripe (checkout_sessions_create _ cus _ _ _ _ _)
      | Stripe (customers_retrieve _), UpdateCustomerStripeInfo _ cus _
      | Stripe (customers_create _ _), UpdateCustomerStripeInfo _ cus _ =>
          cus = obj_id o
      | Stripe (products_create _ _), Stripe (prices_create _ _ _ product) =>
          product = obj_id o
      | Stripe (prices_create _ _ _ _), Stripe (subscriptions_create _ items _ _ _ _ _) =>
          items = [obj_id o]
      | Stripe (prices_create _ _ _ _), Stripe (subscriptionSchedules_create _ _ _ _ phases) =>
          phases = [{| phase_items := [obj_id o]; iterations := 3 |}]
      | Stripe (subscriptionSchedules_create _ _ _ _ _),
        Stripe (checkout_sessions_create _ _ sub _ _ _ _) =>
          sub = obj_subscription o
      | _, _ => True
      end
  end.

(** The subscription id a storage update of the entry hands over, next to
    the subscription the processor returned for it. *)
Definition stores_created_subscription (a b : Entry) : Prop :=
  match call a, reply a, call b with
  | Stripe (subscriptions_create _ _ _ _ _ _ _), RObject o,
    UpdateCustomerStripeInfo _ _ sub => sub = Some (obj_id o)
  | _, _, _ => True
  end.

(* ===================================================================== *)
(** ** The base address, as a list of preferences *)
(* ===================================================================== *)

(** The text of an environment variable, empty when it is not set. *)
Definition text (v : option string) : string :=
  match v with
  | Some s => s
  | None => ""
  end.

(** The addresses the environment offers, best first; an address that
    cannot be formed is left empty. *)
Definition base_candidates (env : Env) : list string :=
  [ text (CUSTOM_DOMAIN_URL env);
    (if text (WEBSITE_HOSTNAME env) =? "" then ""
     else "https://" ++ text (WEBSITE_HOSTNAME env));
    (if (text (REPL_SLUG env) =? "") || (text (REPL_OWNER env) =? "") then ""
     else "https://" ++ text (REPL_SLUG env) ++ "." ++ text (REPL_OWNER env)
            ++ ".repl.co");
    text (WEBSITE_URL env) ].

(** The pence of an amount printed as pounds with two decimals. *)
Definition pounds_and_pence (pence : Z) : string :=
  (JS.digits (pence / 100) ++ "." ++ JS.two_digits (pence mod 100))%Z.

(* ===================================================================== *)
(** ** The payment portal (client/src/pages/payment-portal.tsx) *)
(* ===================================================================== *)

(** The text of the vehicle registration field, as both versions of the
    portal keep it: [value.toUpperCase().replace(/[^A-Z0-9]/g, '')].
    Strings are read as ASCII text; the case mapping of other characters
    is not modelled. *)
Module Registration.

(** Every character of the text is an ASCII character. *)
Fixpoint ascii_text (value : string) : bool :=
  match value with
  | EmptyString => true
  | String c rest => (nat_of_ascii c <? 128)%nat && ascii_text rest
  end.

(** The upper-case form of an ASCII character: [a]..[z] go to [A]..[Z]. *)
Definition upper (c : ascii) : ascii :=
  let n := nat_of_ascii c in
  if ((97 <=? n) && (n <=? 122))%nat then ascii_of_nat (n - 32) else c.

(** [value.toUpperCase()]. *)
Fixpoint toUpperCase (value : string) : string :=
  match value with
  | EmptyString => EmptyString
  | String c rest => String (upper c) (toUpperCase rest)
  end.

(** The characters of the class [A-Z0-9]. *)
Definition plate_character (c : ascii) : bool :=
  let n := nat_of_ascii c in
  (((65 <=? n) && (n <=? 90)) || ((48 <=? n) && (n <=? 57)))%nat.

(** [value.replace(/[^A-Z0-9]/g, '')]: every character outside the class
    is dropped. *)
Fixpoint replace_others (value : string) : string :=
  match value with
  | EmptyString => EmptyString
  | String c rest =>
      if plate_character c then String c (replace_others rest)
      else replace_others rest
  end.

(** The text is made of characters of the class only. *)
Fixpoint plate_text (value : string) : bool :=
  match value with
  | EmptyString => true
  | String c rest => plate_character c && plate_text rest
  end.

End Registration.

(** The portal of the checkout route (the version that posts to
    [/api/create-checkout-session]). *)
Module CheckoutPortal.

(** The state [formData]. *)
Record FormData := mkFormData {
  pcnNumber : string;
  vehicleRegistration : string;
  email : string;
  penaltyAmount : Q
}.

(** The state the form opens with. *)
Definition initial : FormData :=
  {| pcnNumber := "PCN123456789";
     vehicleRegistration := "AB12CDE";
     email := "pcn@payment.com";
     penaltyAmount := 90 |}.

(** [handleInputChange(field, value)], as a function of the previous state.
    [parseFloat] is the number parser of the language, [None] standing for
    NaN; [parseFloat(value) || 0] turns NaN and zero into 0.  A field name
    other than the four of the form adds a key that nothing reads. *)
Definition handleInputChange (parseFloat : string -> option Q)
    (field value : string) (prev : FormData) : FormData :=
  if field =? "vehicleRegistration" then
    {| pcnNumber := pcnNumber prev;
       vehicleRegistration :=
         Registration.replace_others (Registration.toUpperCase value);
       email := email prev;
       penaltyAmount := penaltyAmount prev |}
  else if field =? "penaltyAmount" then
    {| pcnNumber := pcnNumber prev;
       vehicleRegistration := vehicleRegistration prev;
       email := email prev;
       penaltyAmount :=
         match parseFloat value with
         | Some x => if Qeq_bool x 0 then 0%Q else x
         | None => 0%Q
         end |}
  else if field =? "pcnNumber" then
    {| pcnNumber := value;
       vehicleRegistration := vehicleRegistration prev;
       email := email prev;
       penaltyAmount := penaltyAmount prev |}
  else if field =? "email" then
    {| pcnNumber := pcnNumber prev;
       vehicleRegistration := vehicleRegistration prev;
       email := value;
       penaltyAmount := penaltyAmount prev |}
  else prev.

(** The state after a sequence of input events [(field, value)]. *)
Definition after_inputs (parseFloat : string -> option Q)
    (inputs : list (string * string)) : FormData :=
  fold_left (fun prev input =>
               handleInputChange parseFloat (fst input) (snd input) prev)
    inputs initial.

(** What [handleFormSubmit] does with the form before it awaits the
    answer: one of the two toasts, or the request it posts.  The amount
    goes into the JSON body as a decimal numeral, which the server reads as
    a number. *)
Inductive Submission :=
| ValidationToast
| TermsToast
| Posted (body : RequestBody).

Definition handleFormSubmit (formData : FormData) (acceptedTerms : bool)
  : Submission :=
  if (pcnNumber formData =? "") || (vehicleRegistration formData =? "")
     || (email formData =? "")
     || Qeq_bool (penaltyAmount formData) 0
     || Qle_bool (penaltyAmount formData) 0
  then ValidationToast
  else if negb acceptedTerms then TermsToast
  else Posted {| body_email := email formData;
                 body_pcnNumber := pcnNumber formData;
                 body_vehicleRegistration := vehicleRegistration formData;
                 body_penaltyAmount :=
                   JS.number (JS.decimal (penaltyAmount formData)) |}.

(** What [handleFormSubmit] does with the answer: it leaves for [data.url]
    when the response is ok and carries a (truthy) url, and shows the error
    toast otherwise. *)
Inductive Screen :=
| Redirect (url : string)
| ErrorToast.

Definition handleResponse (response : Response) : Screen :=
  match response with
  | Status200 (CheckoutJson _ (Some u) _) =>
      if JS.truthy (Some u) then Redirect u else ErrorToast
  | Status200 _ => ErrorToast
  | Status400 _ => ErrorToast
  end.

End CheckoutPortal.

(** The portal of the direct route (the version that posts to
    [/api/create-subscription]). *)
Module DirectPortal.

Record FormData := mkFormData {
  pcnNumber : string;
  vehicleRegistration : string;
  email : string
}.

Definition initial : FormData :=
  {| pcnNumber := ""; vehicleRegistration := ""; email := "" |}.

Definition handleInputChange (field value : string) (prev : FormData)
  : FormData :=
  if field =? "vehicleRegistration" then
    {| pcnNumber := pcnNumber prev;
       vehicleRegistration :=
         Registration.replace_others (Registration.toUpperCase value);
       email := email prev |}
  else if field =? "pcnNumber" then
    {| pcnNumber := value;
       vehicleRegistration := vehicleRegistration prev;
       email := email prev |}
  else if field =? "email" then
    {| pcnNumber := pcnNumber prev;
       vehicleRegistration := vehicleRegistration prev;
       email := value |}
  else prev.

Definition after_inputs (inputs : list (string * string)) : FormData :=
  fold_left (fun prev input =>
               handleInputChange (fst input) (snd input) prev)
    inputs initial.

(** The toast of [handleFormSubmit], or the three fields it posts. *)
Inductive Submission :=
| ValidationToast
| Posted (fields : InsertCustomer).

Definition handleFormSubmit (formData : FormData) : Submission :=
  if (pcnNumber formData =? "") || (vehicleRegistration formData =? "")
     || (email formData =? "")
  then ValidationToast
  else Posted {| ins_email := email formData;
                 ins_pcnNumber := pcnNumber formData;
                 ins_vehicleRegistration := vehicleRegistration formData |}.

(** What [handleFormSubmit] does with the answer: it goes on to the
    payment step with [data.clientSecret] when the answer carries a
    (truthy) one, and shows the error toast otherwise. *)
Inductive Screen :=
| PaymentStep (clientSecret : string)
| ErrorToast.

Definition handleResponse (response : Response) : Screen :=
  match response with
  | Status200 (SubscriptionJson (Some secret) _ _) =>
      if JS.truthy (Some secret) then PaymentStep secret else ErrorToast
  | Status200 _ => ErrorToast
  | Status400 _ => ErrorToast
  end.

(** The body the server reads of a post of the direct portal: the three
    fields, and whatever else. *)
Definition carries (body : RequestBody) (fields : InsertCustomer) : Prop :=
  body_email body = ins_email fields
  /\ body_pcnNumber body = ins_pcnNumber fields
  /\ body_vehicleRegistration body = ins_vehicleRegistration fields.

End DirectPortal.

(* ===================================================================== *)
(** ** Binary64 arithmetic *)
(* ===================================================================== *)

Module NumberFacts.

Import JS.

Local Open Scope Z_scope.

Lemma nearest_even_bounds p d :
  0 < d -> p / d <= nearest_even p d <= p / d + 1.
Proof.
  intros Hd. unfold nearest_even.
  destruct (2 * (p mod d) ?= d); [destruct (Z.even (p / d))| |]; lia.
Qed.

(** Rounding to the nearest integer misses by half a unit at most. *)
Lemma nearest_even_error p d :
  0 < d -> 2 * Z.abs (nearest_even p d * d - p) <= d.
Proof.
  intros Hd. unfold nearest_even.
  pose proof (Z.div_mod p d ltac:(lia)) as E.
  pose proof (Z.mod_pos_bound p d Hd) as B.
  destruct (Z.compare_spec (2 * (p mod d)) d) as [C|C|C];
    [destruct (Z.even (p / d))| |]; nia.
Qed.

Lemma nearest_even_le p q d :
  0 < d -> p <= q -> nearest_even p d <= nearest_even q d.
Proof.
  intros Hd Hpq.
  pose proof (Z.div_le_mono p q d Hd Hpq) as Hdiv.
  destruct (Z.eq_dec (p / d) (q / d)) as [E|N].
  - unfold nearest_even. rewrite <- E.
    pose proof (Z.div_mod p d ltac:(lia)).
    pose proof (Z.div_mod q d ltac:(lia)).
    assert (p mod d <= q mod d) by nia.
    destruct (Z.compare_spec (2 * (p mod d)) d),
             (Z.compare_spec (2 * (q mod d)) d),
             (Z.even (p / d)); lia.
  - pose proof (nearest_even_bounds p d Hd).
    pose proof (nearest_even_bounds q d Hd). lia.
Qed.

Lemma spacing_pos f : 0 < spacing f.
Proof. unfold spacing. apply Z.pow_pos_nonneg; lia. Qed.

(** A magnitude is below 2^53 spacings, and not below 2^52 of them once
    the spacing is more than a unit. *)
Lemma spacing_above f : 0 <= f -> f < 2 ^ 53 * spacing f.
Proof.
  intros Hf. unfold spacing. rewrite <- Z.pow_add_r by lia.
  destruct (Z.eq_dec f 0) as [->|N].
  - apply Z.pow_pos_nonneg; lia.
  - pose proof (Z.log2_spec f ltac:(lia)) as [_ H].
    eapply Z.lt_le_trans; [exact H|].
    apply Z.pow_le_mono_r; lia.
Qed.

Lemma spacing_below f :
  2 ^ 52 <= f -> 2 ^ 52 * spacing f <= f.
Proof.
  intros Hf. unfold spacing. rewrite <- Z.pow_add_r by lia.
  assert (Hpos : 0 < f) by (pose proof (Z.pow_pos_nonneg 2 52); lia).
  pose proof (Z.log2_spec f Hpos) as [Hlog _].
  assert (Hlo : 52 <= Z.log2 f) by (apply Z.log2_le_pow2; lia).
  replace (52 + Z.max 0 (Z.log2 f - 52)) with (Z.log2 f) by lia.
  exact Hlog.
Qed.

Lemma spacing_le f g : 0 <= f <= g -> spacing f <= spacing g.
Proof.
  intros H. unfold spacing. apply Z.pow_le_mono_r; [lia|].
  pose proof (Z.log2_le_mono f g ltac:(lia)). lia.
Qed.

Lemma round_magnitude_nonneg p d : 0 <= p -> 0 < d -> 0 <= round_magnitude p d.
Proof.
  intros Hp Hd. unfold round_magnitude.
  pose proof (spacing_pos (p / d)) as Hs.
  pose proof (nearest_even_bounds p (d * spacing (p / d)) ltac:(nia)).
  pose proof (Z.div_pos p (d * spacing (p / d)) Hp ltac:(nia)).
  nia.
Qed.

(** What a magnitude is rounded to lies between the powers of two around
    it. *)
Lemma round_magnitude_above p d :
  0 <= p -> 0 < d ->
  round_magnitude p d <= 2 ^ 53 * spacing (p / d).
Proof.
  intros Hp Hd. unfold round_magnitude.
  set (s := spacing (p / d)).
  pose proof (spacing_pos (p / d)) as Hs. fold s in Hs.
  pose proof (spacing_above (p / d) (Z.div_pos p d Hp Hd)) as Ha. fold s in Ha.
  pose proof (nearest_even_bounds p (d * s) ltac:(nia)) as [_ Hb].
  assert (p / (d * s) < 2 ^ 53).
  { apply Z.div_lt_upper_bound; [nia|].
    pose proof (Z.div_mod p d ltac:(lia)).
    pose proof (Z.mod_pos_bound p d Hd). nia. }
  nia.
Qed.

Lemma round_magnitude_below p d :
  0 < d -> 2 ^ 52 <= p / d ->
  2 ^ 52 * spacing (p / d) <= round_magnitude p d.
Proof.
  intros Hd Hf. unfold round_magnitude.
  set (s := spacing (p / d)).
  pose proof (spacing_pos (p / d)) as Hs. fold s in Hs.
  pose proof (spacing_below (p / d) Hf) as Hb. fold s in Hb.
  pose proof (nearest_even_bounds p (d * s) ltac:(nia)) as [Hn _].
  assert (2 ^ 52 <= p / (d * s)).
  { apply Z.div_le_lower_bound; [nia|].
    pose proof (Z.div_mod p d ltac:(lia)).
    pose proof (Z.mod_pos_bound p d Hd). nia. }
  nia.
Qed.

Lemma spacing_double f g :
  0 <= f -> spacing f < spacing g -> 2 * spacing f <= spacing g /\ 2 ^ 52 <= g.
Proof.
  intros Hf H. unfold spacing in *.
  assert (L : Z.max 0 (Z.log2 f - 52) < Z.max 0 (Z.log2 g - 52)).
  { apply (Z.pow_lt_mono_r_iff 2); [lia|lia|exact H]. }
  split.
  - rewrite <- (Z.pow_succ_r 2) by lia. apply Z.pow_le_mono_r; lia.
  - assert (52 <= Z.log2 g) by lia.
    destruct (Z.le_gt_cases g 0) as [G|G].
    + rewrite (Z.log2_nonpos g G) in *. lia.
    + pose proof (Z.log2_spec g G) as [Hg _].
      eapply Z.le_trans; [|exact Hg]. apply Z.pow_le_mono_r; lia.
Qed.

(** Rounding keeps the order of the magnitudes. *)
Lemma round_magnitude_le p q d :
  0 < d -> 0 <= p <= q -> round_magnitude p d <= round_magnitude q d.
Proof.
  intros Hd [Hp Hpq].
  pose proof (Z.div_pos p d Hp Hd) as Hf.
  pose proof (Z.div_le_mono p q d Hd Hpq) as Hfg.
  pose proof (spacing_le (p / d) (q / d) ltac:(lia)) as Hs.
  pose proof (spacing_pos (p / d)) as Hsp.
  destruct (Z.eq_dec (spacing (p / d)) (spacing (q / d))) as [E|N].
  - unfold round_magnitude. rewrite <- E.
    pose proof (nearest_even_le p q (d * spacing (p / d)) ltac:(nia) Hpq).
    nia.
  - destruct (spacing_double (p / d) (q / d) Hf ltac:(lia)) as [H2 H52].
    pose proof (round_magnitude_above p d Hp Hd).
    pose proof (round_magnitude_below q d Hd H52).
    change (2 ^ 53) with (2 * 2 ^ 52) in *. nia.
Qed.

Lemma round_le p q d : 0 < d -> p <= q -> le (round p d) (round q d).
Proof.
  intros Hd Hpq. unfold le, round.
  pose proof (round_magnitude_nonneg (Z.abs p) d ltac:(lia) Hd) as Np.
  pose proof (round_magnitude_nonneg (Z.abs q) d ltac:(lia) Hd) as Nq.
  destruct (Z.ltb_spec p 0) as [Sp|Sp], (Z.ltb_spec q 0) as [Sq|Sq];
    try lia.
  - pose proof (round_magnitude_le (Z.abs q) (Z.abs p) d Hd ltac:(lia)).
    destruct (Z.leb_spec limit (round_magnitude (Z.abs p) d)),
             (Z.leb_spec limit (round_magnitude (Z.abs q) d));
      cbn; try reflexivity; try lia; apply Z.leb_le; lia.
  - destruct (Z.leb_spec limit (round_magnitude (Z.abs p) d)),
             (Z.leb_spec limit (round_magnitude (Z.abs q) d));
      cbn; try reflexivity; apply Z.leb_le; lia.
  - pose proof (round_magnitude_le (Z.abs p) (Z.abs q) d Hd ltac:(lia)).
    destruct (Z.leb_spec limit (round_magnitude (Z.abs p) d)),
             (Z.leb_spec limit (round_magnitude (Z.abs q) d));
      cbn; try reflexivity; try lia; apply Z.leb_le; lia.
Qed.

Lemma div_le x y k : le x y -> le (div x k) (div y k).
Proof.
  unfold le. destruct x as [|[]|a], y as [|[]|b]; cbn; try congruence;
    intros H; try reflexivity.
  - unfold round. destruct (_ <=? _); reflexivity.
  - unfold round. destruct (_ <=? _); [|reflexivity].
    destruct (a <? 0); reflexivity.
  - apply round_le; [lia|]. now apply Z.leb_le.
Qed.

Lemma mul_le x y k : le x y -> le (mul x k) (mul y k).
Proof.
  unfold le. destruct x as [|[]|a], y as [|[]|b]; cbn; try congruence;
    intros H; try reflexivity.
  - unfold round. destruct (_ <=? _); reflexivity.
  - unfold round. destruct (_ <=? _); [|reflexivity].
    destruct (_ <? 0); reflexivity.
  - apply round_le; [lia|]. apply Z.leb_le in H.
    apply Z.mul_le_mono_nonneg_r; [lia|exact H].
Qed.

Lemma scale_pos : 0 < scale.
Proof. unfold scale. apply Z.pow_pos_nonneg; lia. Qed.

Lemma Math_round_le x y : le x y -> le (Math_round x) (Math_round y).
Proof.
  unfold le. destruct x as [|[]|a], y as [|[]|b]; cbn [Math_round leb];
    try congruence.
  intros H. apply Z.leb_le in H. apply Z.leb_le.
  pose proof scale_pos.
  apply Z.mul_le_mono_nonneg_r; [lia|].
  apply Z.div_le_mono; lia.
Qed.

(** Above 2^52 units (the normal numbers) rounding misses by 2^-53 of the
    magnitude at most. *)
Lemma round_magnitude_error p d :
  0 < d -> 2 ^ 52 <= p / d ->
  2 ^ 53 * Z.abs (round_magnitude p d * d - p) <= p.
Proof.
  intros Hd Hf. unfold round_magnitude.
  set (s := spacing (p / d)).
  pose proof (spacing_pos (p / d)) as Hs. fold s in Hs.
  pose proof (spacing_below (p / d) Hf) as Hb. fold s in Hb.
  pose proof (nearest_even_error p (d * s) ltac:(nia)) as He.
  pose proof (Z.div_mod p d ltac:(lia)) as Hp.
  pose proof (Z.mod_pos_bound p d Hd) as Hm.
  set (m := nearest_even p (d * s)) in *.
  change (2 ^ 53) with (2 * 2 ^ 52).
  assert (L1 : 2 ^ 52 * (d * s) <= p) by nia.
  replace (m * s * d) with (m * (d * s)) by ring.
  nia.
Qed.

Lemma round_normal p d :
  0 < d -> 2 ^ 52 * d <= p -> 2 * p < limit * d ->
  exists n, round p d = Finite n /\ 2 ^ 53 * Z.abs (n * d - p) <= p.
Proof.
  intros Hd Hlo Hhi.
  assert (Hp : 0 < p) by nia.
  assert (Hf : 2 ^ 52 <= p / d) by (apply Z.div_le_lower_bound; lia).
  pose proof (round_magnitude_error p d Hd Hf) as He.
  unfold round. rewrite (Z.abs_eq p) by lia.
  destruct (Z.ltb_spec p 0) as [|_]; [lia|].
  destruct (Z.leb_spec limit (round_magnitude p d)) as [Hover|_].
  - exfalso. nia.
  - eexists. split; [reflexivity|exact He].
Qed.

Lemma scale_large : 2 ^ 80 <= scale.
Proof. unfold scale. apply Z.pow_le_mono_r; lia. Qed.

Lemma limit_large : 2 ^ 60 * scale <= limit.
Proof.
  unfold limit, scale. rewrite <- Z.pow_add_r by lia.
  apply Z.pow_le_mono_r; lia.
Qed.

(** The three roundings of a whole number of pence. *)
Lemma whole_pence_chain (n : Z) :
  1 <= n <= 10 ^ 15 ->
  exists a x1 x2,
    decimal (n # 100) = Finite a
    /\ div (Finite a) 3 = Finite x1
    /\ mul (Finite x1) 100 = Finite x2
    /\ 2 ^ 53 * Z.abs (a * 100 - n * scale) <= n * scale
    /\ 2 ^ 53 * Z.abs (x1 * 3 - a) <= a
    /\ 2 ^ 53 * Z.abs (x2 - x1 * 100) <= x1 * 100.
Proof.
  intros Hn.
  pose proof scale_large as HS. pose proof limit_large as HL.
  pose proof scale_pos as HS0.
  remember scale as S eqn:ES. remember limit as L eqn:EL.
  remember (n * S) as M eqn:EM.
  assert (HM : S <= M <= 10 ^ 15 * S) by (subst M; nia).
  change (2 ^ 60) with 1152921504606846976 in *.
  change (2 ^ 80) with 1208925819614629174706176 in *.
  change (10 ^ 15) with 1000000000000000 in *.
  destruct (round_normal M 100) as (a & Ea & Ha).
  { lia. } { change (2 ^ 52) with 4503599627370496. clear ES EL EM. lia. }
  { rewrite <- EL. clear ES EL EM. lia. }
  change (2 ^ 53) with 9007199254740992 in *.
  destruct (round_normal a 3) as (x1 & E1 & H1).
  { lia. } { change (2 ^ 52) with 4503599627370496. clear ES EL EM. lia. }
  { rewrite <- EL. clear ES EL EM. lia. }
  change (2 ^ 53) with 9007199254740992 in *.
  destruct (round_normal (x1 * 100) 1) as (x2 & E2 & H2).
  { lia. } { change (2 ^ 52) with 4503599627370496. clear ES EL EM. lia. }
  { rewrite <- EL. clear ES EL EM. lia. }
  change (2 ^ 53) with 9007199254740992 in *.
  exists a, x1, x2. unfold decimal, div, mul. cbn [Qnum Qden].
  rewrite <- ES, <- EM. change (Z.pos 100) with 100. change (Z.pos 3) with 3.
  rewrite Ea, E1, E2. rewrite Z.mul_1_r in H2.
  repeat split; assumption.
Qed.

Lemma Math_round_third (S x2 n : Z) :
  0 < S -> 2 * Z.abs (3 * x2 - n * S) < S ->
  (2 * x2 + S) / (2 * S) = (n + 1) / 3.
Proof.
  intros HS H.
  pose proof (Z.div_mod (n + 1) 3 ltac:(lia)) as Hq.
  pose proof (Z.mod_pos_bound (n + 1) 3 ltac:(lia)) as Ht.
  remember ((n + 1) / 3) as q eqn:Eq. remember ((n + 1) mod 3) as t eqn:Et.
  clear Eq Et.
  symmetry. apply (Z.div_unique _ _ q (2 * x2 + S - 2 * S * q)); [|ring].
  assert (En : n = 3 * q + t - 1) by lia.
  rewrite En in H.
  assert (Ct : t = 0 \/ t = 1 \/ t = 2) by lia.
  destruct Ct as [C|[C|C]]; subst t; nia.
Qed.

(** For a penalty of [n] pence, up to 10^15 of them, the monthly amount
    is (n + 1) / 3 pence, rounded down: the three roundings of the double
    nearest to [n / 100] stay within a sixth of a penny of [n / 3]. *)
Lemma monthly_amount_whole_pence (n : Z) :
  0 <= n <= 10 ^ 15 ->
  monthlyAmountInPence (decimal (n # 100)) = of_Z ((n + 1) / 3).
Proof.
  intros Hn. destruct (Z.eq_dec n 0) as [->|N].
  - vm_compute. reflexivity.
  - destruct (whole_pence_chain n ltac:(lia))
      as (a & x1 & x2 & Ea & E1 & E2 & Ha & H1 & H2).
    unfold monthlyAmountInPence. rewrite Ea, E1, E2.
    unfold Math_round, of_Z. f_equal. f_equal.
    apply Math_round_third; [exact scale_pos|].
    pose proof scale_pos as HS0.
    remember scale as S eqn:ES. remember (n * S) as M eqn:EM.
    assert (HM : S <= M <= 10 ^ 15 * S) by (subst M; nia).
    change (10 ^ 15) with 1000000000000000 in *.
    change (2 ^ 53) with 9007199254740992 in *.
    clear ES EM Ea E1 E2. lia.
Qed.


(** And a third of it, printed with two decimals, is that amount in pounds
    and pence. *)
Lemma toFixed2_whole_pence (n : Z) :
  0 <= n <= 10 ^ 15 ->
  toFixed2 (div (decimal (n # 100)) 3) = pounds_and_pence ((n + 1) / 3).
Proof.
  intros Hn. destruct (Z.eq_dec n 0) as [->|N].
  - vm_compute. reflexivity.
  - destruct (whole_pence_chain n ltac:(lia))
      as (a & x1 & x2 & Ea & E1 & _ & Ha & H1 & _).
    rewrite Ea, E1. unfold toFixed2, pounds_and_pence.
    pose proof scale_pos as HS0.
    remember scale as S eqn:ES. remember (n * S) as M eqn:EM.
    assert (HM : S <= M <= 10 ^ 15 * S) by (subst M; nia).
    change (10 ^ 15) with 1000000000000000 in *.
    change (2 ^ 53) with 9007199254740992 in *.
    assert (Hx : 0 <= x1 /\ x1 < 1000000000000000000000 * S
                 /\ 2 * Z.abs (3 * (100 * x1) - M) < S)
      by (clear ES EM Ea E1; lia).
    destruct Hx as (Hx0 & Hx1 & Hx2).
    destruct (Z.ltb_spec x1 0) as [|_]; [lia|].
    rewrite (Z.abs_eq x1) by exact Hx0.
    change (10 ^ 21) with 1000000000000000000000.
    destruct (Z.leb_spec (1000000000000000000000 * S) x1) as [|_]; [lia|].
    replace (200 * x1 + S) with (2 * (100 * x1) + S) by ring.
    rewrite EM in Hx2.
    rewrite (Math_round_third S (100 * x1) n HS0 Hx2). reflexivity.
Qed.

(** The monthly amount keeps the order of the penalties. *)
Lemma monthlyAmountInPence_le x y :
  le x y -> le (monthlyAmountInPence x) (monthlyAmountInPence y).
Proof.
  intros H. unfold monthlyAmountInPence.
  apply Math_round_le, mul_le, div_le, H.
Qed.

Lemma decimal_nonneg (q : Q) : (0 <= q)%Q -> le (of_Z 0) (decimal q).
Proof.
  intros Hq. unfold decimal.
  assert (E : of_Z 0 = round (0 * scale) (Z.pos (Qden q))) by reflexivity.
  rewrite E. apply round_le; [lia|].
  pose proof scale_pos.
  apply Z.mul_le_mono_nonneg_r; [lia|].
  unfold Qle in Hq. cbn in Hq. lia.
Qed.

(** Between two neighbours of a binade there is no binary64 value. *)
Lemma no_binary64_between (lo s n : Z) :
  0 < lo -> 0 < s ->
  spacing lo = s -> spacing (lo + s) = s -> lo mod s = 0 ->
  lo < n < lo + s -> round n 1 <> Finite n.
Proof.
  intros Hlo Hs Elo Ehi Hmod Hn.
  assert (En : spacing n = s).
  { apply Z.le_antisymm.
    - rewrite <- Ehi. apply spacing_le. lia.
    - rewrite <- Elo. apply spacing_le. lia. }
  unfold round, round_magnitude. rewrite (Z.abs_eq n) by lia.
  rewrite Z.div_1_r, En, Z.mul_1_l.
  destruct (Z.ltb_spec n 0) as [|_]; [lia|].
  destruct (_ <=? _); [discriminate|]. intros [= E].
  apply Z.mod_divide in Hmod; [|lia]. destruct Hmod as [k Hk].
  remember (nearest_even n s) as m eqn:Em. clear Em.
  assert (Hl : k * s < m * s) by lia.
  assert (Hr : m * s < (k + 1) * s) by lia.
  apply Z.mul_lt_mono_pos_r in Hl, Hr; lia.
Qed.

Lemma not_lt_of_le x y : le x y -> ~ lt y x.
Proof.
  unfold le, lt. destruct x as [|[]|a], y as [|[]|b]; cbn;
    try congruence.
  intros H1 H2. apply Z.leb_le in H1. apply Z.ltb_lt in H2. lia.
Qed.

Lemma lt_of_le_succ (i : Z) x : le (of_Z (i + 1)) x -> lt (of_Z i) x.
Proof.
  unfold le, lt, of_Z. destruct x as [|[]|a]; cbn [leb ltb];
    try congruence.
  intros H. apply Z.leb_le in H. apply Z.ltb_lt.
  pose proof scale_pos. nia.
Qed.

Lemma lt_of_le_pred (i : Z) x : le x (of_Z (i - 1)) -> lt x (of_Z i).
Proof.
  unfold le, lt, of_Z. destruct x as [|[]|a]; cbn [leb ltb];
    try congruence.
  intros H. apply Z.leb_le in H. apply Z.ltb_lt.
  pose proof scale_pos. nia.
Qed.

End NumberFacts.

(* ===================================================================== *)
(** ** Facts about the registry *)
(* ===================================================================== *)

Module StorageFacts.

Import Storage.

Lemma string_length_append (s t : string) :
  String.length (s ++ t) = (String.length s + String.length t)%nat.
Proof. induction s as [|a s IH]; simpl; [reflexivity | now rewrite IH]. Qed.

Lemma concat_covers (l : list string) (s : string) :
  In s l -> (String.length s <= String.length (String.concat "" l))%nat.
Proof.
  induction l as [|x l IH]; intros Hin; [contradiction|].
  assert (E : String.length (String.concat "" (x :: l))
              = (String.length x + String.length (String.concat "" l))%nat).
  { destruct l as [|y l]; simpl; [lia|].
    now rewrite string_length_append. }
  rewrite E. destruct Hin as [<- | Hin]; [lia|].
  specialize (IH Hin). lia.
Qed.

Lemma fresh_id_fresh (r : Registry) : ~ In (fresh_id r) (map id r).
Proof.
  intros Hin. apply concat_covers in Hin.
  unfold fresh_id in Hin. simpl in Hin. lia.
Qed.

Lemma getCustomerByEmail_Some r e c :
  getCustomerByEmail r e = Some c -> In c r /\ email c = e.
Proof.
  intros H. apply find_some in H as [Hin Heq].
  split; [exact Hin | now apply String.eqb_eq].
Qed.

Lemma getCustomerByEmail_None r e :
  getCustomerByEmail r e = None -> ~ In e (map email r).
Proof.
  intros H Hin. apply in_map_iff in Hin as [c [<- Hin]].
  pose proof (find_none _ _ H c Hin) as Hf. cbn in Hf.
  now rewrite String.eqb_refl in Hf.
Qed.

Lemma getCustomer_Some r i c :
  getCustomer r i = Some c -> In c r /\ id c = i.
Proof.
  intros H. apply find_some in H as [Hin Heq].
  split; [exact Hin | now apply String.eqb_eq].
Qed.

Lemma getCustomer_None r i : getCustomer r i = None -> ~ In i (map id r).
Proof.
  intros H Hin. apply in_map_iff in Hin as [c [<- Hin]].
  pose proof (find_none _ _ H c Hin) as Hf. cbn in Hf.
  now rewrite String.eqb_refl in Hf.
Qed.

(** Under unique identifiers a stored record is the one its id finds. *)
Lemma getCustomer_unique r c :
  NoDup (map id r) -> In c r -> getCustomer r (id c) = Some c.
Proof.
  induction r as [|x r IH]; intros Hnd Hin; [contradiction|].
  inversion Hnd as [|? ? Hx Hnd']; subst. cbn.
  destruct Hin as [-> | Hin].
  - now rewrite String.eqb_refl.
  - destruct (String.eqb_spec (id x) (id c)) as [E|_].
    + exfalso. apply Hx. rewrite E. now apply in_map.
    + now apply IH.
Qed.

Lemma lookup_holds r e c :
  wf r -> getCustomerByEmail r e = Some c -> holds r e c.
Proof.
  intros [Hid _] H. split; [exact H|].
  apply getCustomer_unique; [exact Hid|].
  now apply getCustomerByEmail_Some in H.
Qed.

Lemma count_absent r e : ~ In e (map email r) -> count r e = 0%nat.
Proof.
  unfold count. induction r as [|x r IH]; intros Hn; [reflexivity|].
  cbn in *. destruct (String.eqb_spec (email x) e) as [E|_].
  - exfalso. now apply Hn; left.
  - apply IH. intros Hin. apply Hn. now right.
Qed.

Lemma count_present r e :
  NoDup (map email r) -> In e (map email r) -> count r e = 1%nat.
Proof.
  unfold count. induction r as [|x r IH]; intros Hnd Hin; [contradiction|].
  inversion Hnd as [|? ? Hx Hnd']; subst. cbn in *.
  destruct (String.eqb_spec (email x) e) as [E|N].
  - subst e. cbn. f_equal. now apply (count_absent r (email x)).
  - destruct Hin as [E|Hin]; [contradiction|]. now apply IH.
Qed.

Lemma count_app r r' e : count (r ++ r')%list e = (count r e + count r' e)%nat.
Proof. unfold count. now rewrite filter_app, length_app. Qed.

Lemma find_map (f : Customer -> Customer) (p : Customer -> bool) r :
  (forall x, p (f x) = p x) -> find p (map f r) = option_map f (find p r).
Proof.
  intros Hp. induction r as [|x r IH]; [reflexivity|].
  cbn. rewrite Hp. destruct (p x); [reflexivity | exact IH].
Qed.

Lemma find_app {A : Type} (p : A -> bool) (l l' : list A) :
  find p (l ++ l')%list
  = match find p l with Some x => Some x | None => find p l' end.
Proof.
  induction l as [|x l IH]; [reflexivity|].
  cbn. destruct (p x); [reflexivity | exact IH].
Qed.

Lemma createCustomer_inr r ins c r' :
  createCustomer r ins = inr (c, r') ->
  getCustomerByEmail r (ins_email ins) = None
  /\ c = mkCustomer (fresh_id r) (ins_email ins) (ins_pcnNumber ins)
           (ins_vehicleRegistration ins) None None
  /\ r' = (r ++ [c])%list.
Proof.
  unfold createCustomer.
  destruct (getCustomerByEmail r (ins_email ins)); [discriminate|].
  intros [= <- <-]. auto.
Qed.

Lemma createCustomer_inl r ins e :
  createCustomer r ins = inl e ->
  e = ConflictError /\ exists c, getCustomerByEmail r (ins_email ins) = Some c.
Proof.
  unfold createCustomer.
  destruct (getCustomerByEmail r (ins_email ins)) as [c|]; [|discriminate].
  intros [= <-]. eauto.
Qed.

Lemma createCustomer_holds r ins c r' :
  createCustomer r ins = inr (c, r') -> holds r' (ins_email ins) c.
Proof.
  intros H. apply createCustomer_inr in H as (Hnone & Hc & ->).
  unfold holds, getCustomerByEmail, getCustomer.
  rewrite !find_app.
  unfold getCustomerByEmail in Hnone. rewrite Hnone.
  assert (Hid : find (fun x => id x =? id c) r = None).
  { destruct (find (fun x => id x =? id c) r) as [x|] eqn:E; [|reflexivity].
    apply getCustomer_Some in E as [Hin Hx].
    exfalso. apply (fresh_id_fresh r). rewrite Hc in Hx. cbn in Hx.
    rewrite <- Hx. now apply in_map. }
  rewrite Hid. cbn. rewrite String.eqb_refl.
  rewrite Hc at 1. cbn. now rewrite String.eqb_refl.
Qed.

Lemma NoDup_snoc {A : Type} (l : list A) (a : A) :
  NoDup l -> ~ In a l -> NoDup (l ++ [a])%list.
Proof.
  intros Hl Ha. apply NoDup_app; [exact Hl | |].
  - constructor; [intros [] | constructor].
  - intros x Hx [<- | []]. contradiction.
Qed.

Lemma createCustomer_wf r ins c r' :
  wf r -> createCustomer r ins = inr (c, r') -> wf r'.
Proof.
  intros [Hid Hem] H. apply createCustomer_inr in H as (Hnone & Hc & ->).
  unfold wf. rewrite !map_app. cbn. split; apply NoDup_snoc; trivial.
  - rewrite Hc. cbn. apply fresh_id_fresh.
  - rewrite Hc. cbn. now apply getCustomerByEmail_None.
Qed.

Lemma createCustomer_count r ins c r' e :
  createCustomer r ins = inr (c, r') ->
  count r' e = (count r e + (if (ins_email ins =? e)%string then 1 else 0))%nat.
Proof.
  intros H. apply createCustomer_inr in H as (_ & Hc & ->).
  rewrite count_app. f_equal. unfold count. cbn.
  rewrite Hc. cbn. now destruct (ins_email ins =? e).
Qed.

Lemma updateCustomerStripeInfo_inr r i scid sub c' r' :
  updateCustomerStripeInfo r i scid sub = inr (c', r') ->
  exists c, getCustomer r i = Some c
            /\ c' = attach c scid sub
            /\ r' = map (attached i scid sub) r.
Proof.
  unfold updateCustomerStripeInfo.
  destruct (getCustomer r i) as [c|]; [|discriminate].
  intros H. exists c.
  destruct (stripeCustomerId c) as [old|];
    [destruct (old =? scid); [|discriminate]|];
    injection H as <- <-; auto.
Qed.

Lemma updateCustomerStripeInfo_inl r i scid sub e :
  updateCustomerStripeInfo r i scid sub = inl e ->
  e = NotFoundError \/ e = InvariantViolation.
Proof.
  unfold updateCustomerStripeInfo.
  destruct (getCustomer r i) as [c|]; [|intros [= <-]; now left].
  destruct (stripeCustomerId c) as [old|]; [|discriminate].
  destruct (old =? scid); [discriminate|]. intros [= <-]. now right.
Qed.

Lemma attached_email i scid sub x : email (attached i scid sub x) = email x.
Proof. unfold attached. now destruct (id x =? i). Qed.

Lemma attached_id i scid sub x : id (attached i scid sub x) = id x.
Proof. unfold attached. now destruct (id x =? i). Qed.

Lemma updateCustomerStripeInfo_holds r e c scid sub c' r' :
  holds r e c ->
  updateCustomerStripeInfo r (id c) scid sub = inr (c', r') ->
  c' = attach c scid sub /\ holds r' e c'.
Proof.
  intros [He Hi] H.
  apply updateCustomerStripeInfo_inr in H as (c0 & Hc0 & -> & ->).
  rewrite Hi in Hc0. injection Hc0 as <-.
  split; [reflexivity|]. unfold holds, getCustomerByEmail, getCustomer.
  rewrite !find_map.
  - unfold getCustomerByEmail in He. unfold getCustomer in Hi. cbn [id attach].
    rewrite He, Hi. cbn. unfold attached. now rewrite String.eqb_refl.
  - intros x. now rewrite attached_id.
  - intros x. now rewrite attached_email.
Qed.

Lemma updateCustomerStripeInfo_wf r i scid sub c' r' :
  wf r -> updateCustomerStripeInfo r i scid sub = inr (c', r') -> wf r'.
Proof.
  intros [Hid Hem] H.
  apply updateCustomerStripeInfo_inr in H as (c0 & _ & _ & ->).
  unfold wf. rewrite !map_map.
  rewrite (map_ext _ id (attached_id i scid sub)).
  rewrite (map_ext _ email (attached_email i scid sub)). now split.
Qed.

Lemma updateCustomerStripeInfo_count r i scid sub c' r' e :
  updateCustomerStripeInfo r i scid sub = inr (c', r') -> count r' e = count r e.
Proof.
  intros H. apply updateCustomerStripeInfo_inr in H as (c0 & _ & _ & ->).
  unfold count. induction r as [|x r IH]; [reflexivity|].
  cbn. rewrite attached_email. destruct (email x =? e); cbn; now rewrite IH.
Qed.

End StorageFacts.

Import StorageFacts.

(* ===================================================================== *)
(** ** Runs of the handlers, path by path *)
(* ===================================================================== *)

(** A retrieval that succeeds returns the object asked for. *)
Lemma call_retrieve (P : Processor) (s s' : PState P) (i : string)
    (o : StripeObject) :
  Gateway.call P s (customers_retrieve i) = (SOk o, s') -> obj_id o = i.
Proof.
  unfold Gateway.call.
  destruct (stripe P s (customers_retrieve i)) as [[o'|m] s''].
  - intros [= <- _]. reflexivity.
  - discriminate.
Qed.

(** The next branching point of a run: the answer of a storage or
    processor call, the test of the stored processor customer id, the
    validation of the body, or a conversion of the penalty amount. *)
Ltac run_step :=
  match goal with
  | |- context [run (bind (coerce ?x) _) _] =>
      let E := fresh "Econv" in destruct x as [?v|] eqn:E
  | |- context [Storage.getCustomerByEmail ?reg ?em] =>
      let E := fresh "Eget" in
      destruct (Storage.getCustomerByEmail reg em) as [?c|] eqn:E
  | |- context [Storage.createCustomer ?reg ?i] =>
      let E := fresh "Ecreate" in
      destruct (Storage.createCustomer reg i) as [?e|[?c ?r]] eqn:E
  | |- context [match stripeCustomerId ?cu with _ => _ end] =>
      let E := fresh "Esid" in destruct (stripeCustomerId cu) as [?sid|] eqn:E
  | |- context [if negb (?str =? "") then _ else _] =>
      let E := fresh "Eempty" in destruct (str =? "") eqn:E
  | |- context [Gateway.call ?P ?st ?sc] =>
      let E := fresh "Ecall" in
      destruct (Gateway.call P st sc) as [[?o|?m] ?s] eqn:E
  | |- context [Storage.updateCustomerStripeInfo ?reg ?i ?scid ?sub] =>
      let E := fresh "Eupd" in
      destruct (Storage.updateCustomerStripeInfo reg i scid sub)
        as [?e|[?c ?r]] eqn:E
  | |- context [if ?a || ?b then _ else _] =>
      let E := fresh "Evalid" in destruct (a || b) eqn:E
  end.

(** Every path of the handler run the goal is about: the run is replaced
    by its result on each path, with the answers met on the way left as
    hypotheses. *)
Ltac run_paths :=
  let Hrun := fresh "Hrun" in
  let Q := fresh "Q" in
  match goal with
  | |- context [run ?p ?w] =>
      let res := fresh "res" in
      let w' := fresh "w'" in
      let log := fresh "log" in
      destruct (run p w) as [[res w'] log] eqn:Hrun;
      cbn [outcome world_of log_of fst snd];
      pattern res, w', log;
      match goal with |- ?F res w' log => set (Q := F) end;
      revert Hrun
  end;
  unfold handler, create_subscription, create_checkout_session,
    insertCustomerSchema_parse, resolveCustomer, ensureStripeCustomer,
    storage_getCustomerByEmail, storage_createCustomer,
    storage_updateCustomerStripeInfo, stripe_request;
  repeat (cbn [run bind coerce perform lift_storage reply_of JS.truthy negb
               registry processor fst snd
               ins_email ins_pcnNumber ins_vehicleRegistration];
          try run_step);
  intros Hrun; injection Hrun as <- <- <-; subst Q; cbv beta.

(** What the storage calls of a path tell about the registry. *)
Ltac storage_facts :=
  repeat match goal with
  | E : stripeCustomerId (mkCustomer _ _ _ _ None _) = Some _ |- _ =>
      discriminate E
  | Hwf : Storage.wf ?r, E : Storage.getCustomerByEmail ?r _ = Some _ |- _ =>
      apply (lookup_holds _ _ _ Hwf) in E
  | N : Storage.getCustomerByEmail ?r ?e = None,
    E : Storage.createCustomer ?r _ = inl _ |- _ =>
      exfalso; apply createCustomer_inl in E as [_ [? E]];
      cbn [ins_email] in E; rewrite N in E; discriminate E
  | E : Storage.createCustomer ?r _ = inr (_, _) |- _ =>
      let Hh := fresh "Hholds" in
      pose proof (createCustomer_holds _ _ _ _ E) as Hh; cbn [ins_email] in Hh;
      apply createCustomer_inr in E as (_ & -> & ?)
  | Hh : Storage.holds ?r _ ?c,
    E : Storage.updateCustomerStripeInfo ?r (id ?c) _ _ = inr (_, _) |- _ =>
      apply (updateCustomerStripeInfo_holds _ _ _ _ _ _ _ Hh) in E as [-> E]
  | E : Gateway.call _ _ (customers_retrieve _) = (SOk _, _) |- _ =>
      apply call_retrieve in E
  end.

(** Closes the paths a hypothesis on the looked-up record rules out. *)
Ltac known_record Hget :=
  first [discriminate Hget | injection Hget as Hget; subst].

(** A property of a log of known shape, entry by entry or pair by pair. *)
Ltac each_entry :=
  repeat first [apply Forall_nil | apply Forall_cons].

Ltac each_pair :=
  repeat first [apply FOP_nil | apply FOP_cons; [each_entry|]].

(** The last entry of a log of known shape, and membership in it. *)
Ltac last_of l :=
  lazymatch l with
  | [?x] => x
  | _ :: ?t => last_of t
  end.

Ltac in_log := cbn [In]; repeat first [left; reflexivity | right].

(** The record known for the registry the goal is about. *)
Ltac pick_holds :=
  match goal with
  | H : Storage.holds ?r _ _ |- Storage.getCustomerByEmail ?r _ = Some _ =>
      apply H
  | H : Storage.holds ?r _ _ |- Storage.holds ?r _ _ => exact H
  end.

(** The record assumed for the final registry is the one known for it. *)
Ltac final_record Hc :=
  cbn [registry] in Hc;
  match type of Hc with
  | Storage.getCustomerByEmail ?r _ = Some _ =>
      match goal with
      | Hh : Storage.holds r _ _ |- _ =>
          let Hl := fresh in
          pose proof (proj1 Hh) as Hl; rewrite Hl in Hc; injection Hc as <-
      end
  end.

Section Provisioning.

Context {P : Processor}.

Implicit Types (w : World P) (body : RequestBody) (route : Route).

Lemma accepted_identified now body :
  accepted (CreateSubscription now) body = true ->
  (body_email body =? "") || (body_pcnNumber body =? "")
  || (body_vehicleRegistration body =? "") = false.
Proof. cbn. unfold identified. apply negb_true_iff. Qed.

(** C3: once the record of a customer carries a processor customer id
    (a non-empty string, which is what the handlers test), a provisioning
    run for that customer retrieves the processor customer by that id right
    after the lookup, never creates a processor customer, passes no other
    id to the storage update, and leaves the stored id in place. *)
Theorem C3_retrieve_never_create route body w c sid :
  accepted route body = true ->
  Storage.wf (registry w) ->
  Storage.getCustomerByEmail (registry w) (body_email body) = Some c ->
  stripeCustomerId c = Some sid ->
  sid <> "" ->
  let r := run (handler route body) w in
  (exists first second rest,
      log_of r = first :: second :: rest
      /\ call first = GetCustomerByEmail (body_email body)
      /\ call second = Stripe (customers_retrieve sid))
  /\ Forall (keeps_customer sid) (log_of r)
  /\ exists c',
       Storage.getCustomerByEmail (registry (world_of r)) (body_email body)
       = Some c'
       /\ stripeCustomerId c' = Some sid.
Proof.
  intros Hacc Hwf Hget Hsid Hne r. subst r.
  destruct route as [now|env];
    [apply accepted_identified in Hacc|clear Hacc];
    run_paths; try congruence; known_record Hget;
    try congruence;
    try (apply String.eqb_eq in Eempty; congruence);
    rewrite Hsid in Esid; injection Esid as <-;
    storage_facts;
    (split; [eexists _, _, _; repeat split; reflexivity|]);
    (split; [each_entry; cbn; first [exact I | congruence]|]);
    cbn [registry]; eexists; (split; [pick_holds | cbn; congruence]).
Qed.

(** C4: in every run, a charge-scheme call (product, price, subscription
    or schedule) issued after the creation of a processor customer finds
    the id of that customer already stored on the record of the email. *)
Theorem C4_persist_before_proceed route body w :
  Storage.wf (registry w) ->
  ForallOrdPairs
    (fun k e => forall sid,
         created_customer k sid -> charge_scheme_call e ->
         persisted (body_email body) sid e)
    (log_of (run (handler route body) w)).
Proof.
  intros Hwf.
  destruct route as [now|env]; run_paths; storage_facts;
    each_pair;
    intros ? (? & ? & ? & Hc & Hr & <-) (? & Hsc & Hch);
    cbn [call reply entry_of reply_of] in Hc, Hr, Hsc;
    try discriminate Hc; try discriminate Hsc;
    injection Hr as <-;
    try (injection Hsc as <-; discriminate Hch);
    (eexists; split; [cbn [stored entry_of registry]; pick_holds | reflexivity]).
Qed.

(** The direct route stores the id of the subscription it created before
    it answers. *)
Lemma create_subscription_stores_subscription now body w cs sub cid :
  Storage.wf (registry w) ->
  let r := run (create_subscription now body) w in
  outcome r = inr (SubscriptionJson cs sub cid) ->
  exists c,
    Storage.getCustomerByEmail (registry (world_of r)) (body_email body) = Some c
    /\ id c = cid
    /\ stripeSubscriptionId c = Some sub.
Proof.
  intros Hwf r. subst r.
  run_paths; intros Hout; try discriminate Hout; storage_facts;
    injection Hout as <- <- <-;
    (eexists; split; [cbn [registry]; pick_holds | split; reflexivity]).
Qed.

(** The checkout route never passes a subscription or schedule id to the
    storage. *)
Lemma create_checkout_session_sets_no_subscription env body w :
  Forall sets_no_subscription
    (log_of (run (create_checkout_session env body) w)).
Proof.
  run_paths; each_entry; reflexivity || exact I.
Qed.

(** The checkout route bills the monthly amount, three times. *)
Lemma create_checkout_session_schedule env body w :
  Forall (scheduled_price (body_penaltyAmount body))
    (log_of (run (create_checkout_session env body) w)).
Proof.
  run_paths; each_entry; cbn; eauto.
Qed.

(** C7, amended: the subscription and the schedule carry pcnNumber and
    vehicleRegistration of the customer record and totalPayments = "3"; the
    schedule and the checkout session carry penaltyAmount and monthlyAmount,
    the strings that [penaltyAmount.toString()] and
    [(penaltyAmount / 3).toFixed(2)] evaluate to in binary64 arithmetic; the
    processor customer carries pcnNumber and vehicleRegistration only, the
    checkout session customerId, pcnNumber and vehicleRegistration but no
    totalPayments; product and price carry no metadata. *)
Theorem C7_metadata_amended route body w c :
  Storage.wf (registry w) ->
  let r := run (handler route body) w in
  Storage.getCustomerByEmail (registry (world_of r)) (body_email body) = Some c ->
  Forall (metadata_as_built c (body_penaltyAmount body)) (log_of r).
Proof.
  intros Hwf r. subst r.
  destruct route as [now|env]; run_paths; storage_facts; intros Hc;
    try (apply Forall_nil);
    final_record Hc; each_entry;
    first [ reflexivity
          | exact I
          | eexists _, _; split; [eassumption|];
            split; [eassumption|reflexivity] ].
Qed.

Lemma prefix_append (s t : string) : String.prefix s (s ++ t) = true.
Proof.
  induction s as [|a s IH]; cbn; [now destruct t|].
  destruct (Ascii.ascii_dec a a) as [_|N]; [exact IH | congruence].
Qed.

(** C8, amended: a successful checkout request answers with the id and
    the url of the session as the processor returned them and with the id
    of the customer record; it is the success and cancel addresses passed
    to the processor that start with the configured base address. *)
Theorem C8_checkout_output_amended env body w j :
  Storage.wf (registry w) ->
  let r := run (create_checkout_session env body) w in
  outcome r = inr j ->
  exists e c o cus sub success_url cancel_url md,
    In e (log_of r)
    /\ call e = Stripe (checkout_sessions_create "subscription" cus sub "auto"
                          success_url cancel_url md)
    /\ reply e = RObject o
    /\ j = CheckoutJson (obj_id o) (url o) (id c)
    /\ Storage.getCustomerByEmail (registry (world_of r)) (body_email body)
       = Some c
    /\ success_url
       = domainURL env ++ "/payment-success?session_id={CHECKOUT_SESSION_ID}"
    /\ cancel_url = domainURL env ++ "/"
    /\ String.prefix (domainURL env) success_url = true
    /\ String.prefix (domainURL env) cancel_url = true.
Proof.
  intros Hwf r. subst r.
  run_paths; intros Hout; try discriminate Hout; storage_facts;
    injection Hout as <-;
    lazymatch goal with
    | |- context [In _ ?l] => let x := last_of l in exists x
    end;
    lazymatch goal with
    | Hh : Storage.holds ?r _ ?c
      |- context [Storage.getCustomerByEmail (registry (mkWorld ?r _))] =>
        exists c
    end;
    eexists _, _, _, _, _, _;
    (split; [in_log|]);
    (split; [reflexivity|]);
    (split; [reflexivity|]);
    (split; [reflexivity|]);
    (split; [cbn [registry]; pick_holds|]);
    (split; [reflexivity|]);
    (split; [reflexivity|]);
    split; apply prefix_append.
Qed.

(** What a log of known shape bills: the schedules and subscriptions in
    it, with the prices of their items looked up in the log. *)
Ltac billed :=
  cbn [instalments charges flat_map call reply entry_of reply_of app
       prices_of map unit_amount_of phase_items iterations];
  rewrite ?String.eqb_refl;
  change (Z.to_nat 3) with 3%nat;
  cbn [repeat List.concat app].


(** C1, amended: for a penalty of a whole number [n] of pence, up to 10^15
    of them, the instalments billed by a run of the checkout route are
    three times the same amount, (n + 1) / 3 pence rounded down (one price,
    one phase of three iterations), or none when the run fails before the
    schedule is created; three of them make the penalty when [n] is a
    multiple of 3 and miss it by one penny otherwise.  No remainder goes to
    the first instalment. *)
Theorem C1_split_amended env body w n :
  (0 <= n <= 10 ^ 15)%Z ->
  body_penaltyAmount body = JS.number (JS.decimal (n # 100)) ->
  let r := run (create_checkout_session env body) w in
  let i := Some (JS.of_Z ((n + 1) / 3)) in
  (instalments (log_of r) = [i; i; i] \/ instalments (log_of r) = [])
  /\ (forall j, outcome r = inr j -> instalments (log_of r) = [i; i; i])
  /\ (Z.abs (3 * ((n + 1) / 3) - n) <= 1)%Z
  /\ (3 * ((n + 1) / 3) = n <-> n mod 3 = 0)%Z.
Proof.
  intros Hn Hamount r i. subst r.
  assert (Harith : (Z.abs (3 * ((n + 1) / 3) - n) <= 1
                    /\ (3 * ((n + 1) / 3) = n <-> n mod 3 = 0))%Z).
  { pose proof (Z.div_mod (n + 1) 3 ltac:(lia)).
    pose proof (Z.mod_pos_bound (n + 1) 3 ltac:(lia)).
    pose proof (Z.div_mod n 3 ltac:(lia)).
    pose proof (Z.mod_pos_bound n 3 ltac:(lia)).
    lia. }
  pose proof (NumberFacts.monthly_amount_whole_pence n Hn) as Hmonth.
  cut ((instalments
          (log_of (run (create_checkout_session env body) w)) = [i; i; i]
        \/ instalments
             (log_of (run (create_checkout_session env body) w)) = [])
       /\ (forall j, outcome (run (create_checkout_session env body) w)
                     = inr j ->
             instalments
               (log_of (run (create_checkout_session env body) w))
             = [i; i; i])).
  { intros [H1 H2]. split; [exact H1|]. split; [exact H2|exact Harith]. }
  clear Harith.
  run_paths;
    repeat match goal with
           | E : _ (body_penaltyAmount body) = _ |- _ =>
               rewrite Hamount in E; cbn [JS.ToString JS.ToNumber JS.toString] in E;
               first [discriminate E | injection E as <-]
           end;
    billed; rewrite ?Hmonth; fold i;
    (split; [first [left; reflexivity | right; reflexivity]
            |intros j Hj; first [reflexivity | discriminate Hj]]).
Qed.

(** C10: when the email already has a record, a run of the direct route
    creates no record and leaves the stored pcnNumber and
    vehicleRegistration as they are; the subscription metadata carries the
    stored values, the name and the description of the product those of
    the request. *)
Theorem C10_stored_fields_kept now body w c :
  Storage.wf (registry w) ->
  identified body = true ->
  Storage.getCustomerByEmail (registry w) (body_email body) = Some c ->
  let r := run (create_subscription now body) w in
  (exists c',
      Storage.getCustomerByEmail (registry (world_of r)) (body_email body)
      = Some c'
      /\ pcnNumber c' = pcnNumber c
      /\ vehicleRegistration c' = vehicleRegistration c)
  /\ Forall (uses_stored_fields c body) (log_of r).
Proof.
  intros Hwf Hid Hget r. subst r.
  apply (accepted_identified now) in Hid.
  run_paths; try congruence; known_record Hget; storage_facts;
    (split; [eexists; (split; [cbn [registry]; pick_holds | split; reflexivity])
            | each_entry; cbn; auto]).
Qed.

(** The checkout route checks nothing of the body: whatever the body
    holds, the run starts with the lookup of the customer and is never
    answered with ValidationError. *)
Lemma create_checkout_session_validates_nothing env body w :
  let r := run (create_checkout_session env body) w in
  outcome r <> inl ValidationError
  /\ exists first rest,
       log_of r = first :: rest
       /\ call first = GetCustomerByEmail (body_email body).
Proof.
  intros r. subst r.
  run_paths; storage_facts;
    (split; [|eexists _, _; split; reflexivity]);
    try discriminate;
    match goal with
    | E : Storage.updateCustomerStripeInfo _ _ _ _ = inl _ |- _ =>
        apply updateCustomerStripeInfo_inl in E as [-> | ->]; discriminate
    | E : Storage.createCustomer _ _ = inl _ |- _ =>
        apply createCustomer_inl in E as [-> _]; discriminate
    end.
Qed.

End Provisioning.

(* ===================================================================== *)
(** ** Requests in flight at once *)
(* ===================================================================== *)

Section Interleaving.

Context {P : Processor}.

Implicit Types (w : World P) (e : string).

(** A call leaves the registry well formed and forgets no email. *)
Lemma perform_wf (c : Call) w :
  Storage.wf (registry w) -> Storage.wf (registry (snd (perform c w))).
Proof.
  intros Hwf. destruct c as [em|ins|i scid sub|sc]; cbn.
  - exact Hwf.
  - destruct (Storage.createCustomer (registry w) ins) as [err|[c r']] eqn:E;
      cbn; [exact Hwf|]. eapply createCustomer_wf; eauto.
  - destruct (Storage.updateCustomerStripeInfo (registry w) i scid sub)
      as [err|[c r']] eqn:E; cbn; [exact Hwf|].
    eapply updateCustomerStripeInfo_wf; eauto.
  - destruct (Gateway.call P (processor w) sc) as [[o|m] s']; exact Hwf.
Qed.

Lemma perform_present (c : Call) w e :
  present e w -> present e (snd (perform c w)).
Proof.
  unfold present.
  intros Hin. destruct c as [em|ins|i scid sub|sc]; cbn.
  - exact Hin.
  - destruct (Storage.createCustomer (registry w) ins) as [err|[c r']] eqn:E;
      cbn; [exact Hin|].
    apply createCustomer_inr in E as (_ & _ & ->).
    rewrite map_app. apply in_or_app. now left.
  - destruct (Storage.updateCustomerStripeInfo (registry w) i scid sub)
      as [err|[c r']] eqn:E; cbn; [exact Hin|].
    apply updateCustomerStripeInfo_inr in E as (c0 & _ & _ & ->).
    rewrite map_map.
    now rewrite (map_ext _ email (attached_email i scid sub)).
  - destruct (Gateway.call P (processor w) sc) as [[o|m] s']; exact Hin.
Qed.

(** The call a pending request makes settles the matter, or leaves the
    request pending. *)
Lemma perform_pending {R : Type} (c : Call) (k : Answer c -> Prog R) w e :
  pending e (Await c k) ->
  match perform c w with
  | (inr x, w') => resolving e w' (k x)
  | (inl _, w') => present e w'
  end.
Proof.
  destruct c as [em|ins|i scid sub|sc]; cbn; try contradiction.
  - intros [-> Hk].
    destruct (Storage.getCustomerByEmail (registry w) e) as [c|] eqn:E.
    + left. apply getCustomerByEmail_Some in E as [Hin <-].
      now apply in_map.
    + now right.
  - intros <-.
    destruct (Storage.createCustomer (registry w) ins) as [err|[c r']] eqn:E;
      cbn.
    + apply createCustomer_inl in E as (_ & c & E).
      apply getCustomerByEmail_Some in E as [Hin <-]. now apply in_map.
    + left. unfold present. cbn.
      apply createCustomer_inr in E as (_ & -> & ->).
      rewrite map_app. apply in_or_app. right. now left.
Qed.

Lemma step_wf {R : Type} (p : Prog R) w :
  Storage.wf (registry w) -> Storage.wf (registry (snd (step p w))).
Proof.
  intros Hwf. destruct p as [r|err|c k]; cbn; try exact Hwf.
  pose proof (perform_wf c w Hwf) as H.
  destruct (perform c w) as [[err|x] w']; exact H.
Qed.

Lemma step_present {R : Type} (p : Prog R) w e :
  present e w -> present e (snd (step p w)).
Proof.
  intros Hin. destruct p as [r|err|c k]; cbn; try exact Hin.
  pose proof (perform_present c w e Hin) as H.
  destruct (perform c w) as [[err|x] w']; exact H.
Qed.

(** A step of the request itself keeps it on its way to a record. *)
Lemma step_resolving {R : Type} (p : Prog R) w e :
  resolving e w p -> resolving e (snd (step p w)) (fst (step p w)).
Proof.
  intros [Hin|Hp].
  - left. now apply step_present.
  - destruct p as [r|err|c k]; try contradiction.
    pose proof (perform_pending c k w e Hp) as H. cbn.
    destruct (perform c w) as [[err|x] w']; cbn; [now left | exact H].
Qed.

(** So does a step of another request. *)
Lemma step_other {R : Type} (p q : Prog R) w e :
  resolving e w q -> resolving e (snd (step p w)) q.
Proof.
  intros [Hin|Hq]; [left; now apply step_present | now right].
Qed.

Lemma run_wf {R : Type} (p : Prog R) w :
  Storage.wf (registry w) -> Storage.wf (registry (world_of (run p w))).
Proof.
  revert w. induction p as [r|err|c k IH]; intros w Hwf; cbn; try exact Hwf.
  pose proof (perform_wf c w Hwf) as H.
  destruct (perform c w) as [[err|x] w']; cbn in *; [exact H|].
  specialize (IH x w' H).
  destruct (run (k x) w') as [[res w''] log]. exact IH.
Qed.

Lemma run_present {R : Type} (p : Prog R) w e :
  present e w -> present e (world_of (run p w)).
Proof.
  revert w. induction p as [r|err|c k IH]; intros w Hin; cbn; try exact Hin.
  pose proof (perform_present c w e Hin) as H.
  destruct (perform c w) as [[err|x] w']; cbn in *; [exact H|].
  specialize (IH x w' H).
  destruct (run (k x) w') as [[res w''] log]. exact IH.
Qed.

(** A request on its way to a record has one when it ends. *)
Lemma run_resolving {R : Type} (p : Prog R) w e :
  resolving e w p -> present e (world_of (run p w)).
Proof.
  revert w. induction p as [r|err|c k IH]; intros w [Hin|Hp];
    try (now apply run_present); try contradiction.
  pose proof (perform_pending c k w e Hp) as H. cbn.
  destruct (perform c w) as [[err|x] w']; cbn; [exact H|].
  specialize (IH x w' H).
  destruct (run (k x) w') as [[res w''] log]. exact IH.
Qed.

Lemma step_nth_invariant {R : Type} (i : nat) (ps : list (Prog R)) w e :
  Storage.wf (registry w) ->
  Forall (resolving e w) ps ->
  Storage.wf (registry (snd (step_nth i ps w)))
  /\ Forall (resolving e (snd (step_nth i ps w))) (fst (step_nth i ps w))
  /\ length (fst (step_nth i ps w)) = length ps.
Proof.
  intros Hwf. revert i. induction ps as [|p ps IH]; intros i Hall; cbn.
  - repeat split; auto; apply Hwf.
  - inversion Hall as [|? ? Hp Hps]; subst.
    destruct i as [|i].
    + pose proof (step_wf p w Hwf) as H1.
      pose proof (step_resolving p w e Hp) as H2.
      assert (H3 : Forall (resolving e (snd (step p w))) ps).
      { eapply Forall_impl; [|exact Hps]. intros q. apply step_other. }
      destruct (step p w) as [p' w']; cbn in *.
      split; [exact H1|]. split; [now constructor|reflexivity].
    + destruct (IH i Hps) as (H1 & H2 & H3).
      destruct (step_nth i ps w) as [ps' w'] eqn:E; cbn in *.
      split; [exact H1|]. split; [|now rewrite H3].
      constructor; [|exact H2].
      destruct Hp as [Hin|Hp]; [left|now right].
      clear - Hin E. revert i ps' w' E.
      induction ps as [|q ps IHps]; intros i ps' w' E; cbn in E.
      * now injection E as <- <-.
      * destruct i as [|i].
        -- pose proof (step_present q w e Hin) as H.
           destruct (step q w) as [q' w'']. now injection E as <- <-.
        -- destruct (step_nth i ps w) as [ps'' w''] eqn:E'.
           injection E as <- <-. eapply IHps; eauto.
Qed.

Lemma run_all_wf {R : Type} (ps : list (Prog R)) w :
  Storage.wf (registry w) -> Storage.wf (registry (snd (run_all ps w))).
Proof.
  revert w. induction ps as [|p ps IH]; intros w Hwf; cbn; [exact Hwf|].
  pose proof (run_wf p w Hwf) as H.
  destruct (run p w) as [[a w1] l]; cbn in H.
  specialize (IH w1 H). destruct (run_all ps w1) as [rs w2]. exact IH.
Qed.

Lemma run_all_present {R : Type} (ps : list (Prog R)) w e :
  present e w -> present e (snd (run_all ps w)).
Proof.
  revert w. induction ps as [|p ps IH]; intros w Hin; cbn; [exact Hin|].
  pose proof (run_present p w e Hin) as H.
  destruct (run p w) as [[a w1] l]; cbn in H.
  specialize (IH w1 H). destruct (run_all ps w1) as [rs w2]. exact IH.
Qed.

Lemma run_all_resolving {R : Type} (ps : list (Prog R)) w e :
  ps <> [] -> Forall (resolving e w) ps -> present e (snd (run_all ps w)).
Proof.
  destruct ps as [|p ps]; [congruence|]. intros _ Hall.
  inversion Hall as [|? ? Hp _]; subst. cbn.
  pose proof (run_resolving p w e Hp) as H.
  destruct (run p w) as [[a w1] l]; cbn in H.
  pose proof (run_all_present ps w1 e H) as H'.
  destruct (run_all ps w1) as [rs w2]. exact H'.
Qed.

(** However the requests are interleaved, the registry stays well formed
    and the email has a record in the end. *)
Lemma race_invariant {R : Type} (schedule : list nat) (ps : list (Prog R)) w e :
  ps <> [] ->
  Storage.wf (registry w) ->
  Forall (resolving e w) ps ->
  Storage.wf (registry (snd (race schedule ps w)))
  /\ present e (snd (race schedule ps w)).
Proof.
  revert ps w. induction schedule as [|i s IH]; intros ps w Hne Hwf Hall; cbn.
  - split; [now apply run_all_wf | now apply run_all_resolving].
  - destruct (step_nth_invariant i ps w e Hwf Hall) as (H1 & H2 & H3).
    destruct (step_nth i ps w) as [ps' w']; cbn in *.
    apply IH; auto. destruct ps'; [|congruence].
    destruct ps; [congruence|discriminate].
Qed.

Lemma handler_pending route body :
  accepted route body = true -> pending (body_email body) (handler route body).
Proof.
  destruct route as [now|env]; cbn [accepted handler]; intros Hacc.
  - unfold identified in Hacc. apply negb_true_iff in Hacc.
    unfold create_subscription, insertCustomerSchema_parse. rewrite Hacc.
    cbn. auto.
  - cbn. auto.
Qed.

Lemma createCustomer_absent r ins :
  Storage.getCustomerByEmail r (ins_email ins) = None ->
  exists c r', Storage.createCustomer r ins = inr (c, r').
Proof. intros H. unfold Storage.createCustomer. rewrite H. eauto. Qed.

Lemma createCustomer_again r ins c r' :
  Storage.createCustomer r ins = inr (c, r') ->
  Storage.createCustomer r' ins = inl ConflictError.
Proof.
  intros H. apply createCustomer_holds in H as [H _].
  unfold Storage.createCustomer. now rewrite H.
Qed.

(** Two requests that both look the customer up before either creates it:
    the second create is refused and the error ends the request. *)
Lemma race_conflict route body w :
  accepted route body = true ->
  Storage.getCustomerByEmail (registry w) (body_email body) = None ->
  exists first,
    fst (race [0; 1; 0; 1]%nat [handler route body; handler route body] w)
    = [first; inl ConflictError].
Proof.
  intros Hacc Hnone.
  destruct (createCustomer_absent (registry w)
              (mkInsert (body_email body) (body_pcnNumber body)
                 (body_vehicleRegistration body)) Hnone) as (c & r' & Hc).
  pose proof (createCustomer_again _ _ _ _ Hc) as Hc'.
  destruct route as [now|env]; cbn [accepted handler] in *.
  - unfold identified in Hacc. apply negb_true_iff in Hacc.
    unfold create_subscription, insertCustomerSchema_parse. rewrite Hacc.
    unfold resolveCustomer, storage_getCustomerByEmail, storage_createCustomer.
    cbn [race step_nth step bind perform lift_storage registry processor
         ins_email ins_pcnNumber ins_vehicleRegistration fst snd].
    rewrite Hnone.
    cbn [race step_nth step bind perform lift_storage registry processor
         ins_email ins_pcnNumber ins_vehicleRegistration fst snd].
    rewrite Hc.
    cbn [race step_nth step bind perform lift_storage registry processor
         ins_email ins_pcnNumber ins_vehicleRegistration fst snd].
    rewrite Hc'.
    cbn [race run_all run step_nth step bind perform lift_storage registry
         processor fst snd].
    match goal with |- context [run ?p ?w0] => destruct (run p w0) as [[a w1] l] end.
    cbn. eauto.
  - unfold create_checkout_session.
    unfold resolveCustomer, storage_getCustomerByEmail, storage_createCustomer.
    cbn [race step_nth step bind perform lift_storage registry processor
         ins_email ins_pcnNumber ins_vehicleRegistration fst snd].
    rewrite Hnone.
    cbn [race step_nth step bind perform lift_storage registry processor
         ins_email ins_pcnNumber ins_vehicleRegistration fst snd].
    rewrite Hc.
    cbn [race step_nth step bind perform lift_storage registry processor
         ins_email ins_pcnNumber ins_vehicleRegistration fst snd].
    rewrite Hc'.
    cbn [race run_all run step_nth step bind perform lift_storage registry
         processor fst snd].
    match goal with |- context [run ?p ?w0] => destruct (run p w0) as [[a w1] l] end.
    cbn. eauto.
Qed.

(** C6, amended (identity resolution; the registry contract is modelled
    from the specification): for every email, however many requests of a
    route are made for it, one after the other or interleaved, the registry
    ends up with exactly one record of that email.  A ConflictError from a
    racing create is not recovered by a second lookup: when two requests
    both look the customer up before either creates it, the second is
    answered with status 400 and that error. *)
Theorem C6_one_record_amended route body w n schedule :
  accepted route body = true ->
  Storage.wf (registry w) ->
  (0 < n)%nat ->
  Storage.count
    (registry (snd (race schedule (repeat (handler route body) n) w)))
    (body_email body) = 1%nat
  /\ (Storage.getCustomerByEmail (registry w) (body_email body) = None ->
      exists first,
        map respond
          (fst (race [0; 1; 0; 1]%nat [handler route body; handler route body] w))
        = [first; Status400 ConflictError]).
Proof.
  intros Hacc Hwf Hn. split.
  - destruct (race_invariant schedule (repeat (handler route body) n) w
                (body_email body)) as [[_ Hem] Hin]; trivial.
    + destruct n; [lia|discriminate].
    + apply Forall_forall. intros p Hp. apply repeat_spec in Hp as ->.
      right. now apply handler_pending.
    + now apply count_present.
  - intros Hnone.
    destruct (race_conflict route body w Hacc Hnone) as [first ->].
    now exists (respond first).
Qed.

End Interleaving.

(* ===================================================================== *)
(** ** The scenarios, run in test mode *)
(* ===================================================================== *)

Lemma wf_fresh : Storage.wf (registry TestMode.fresh).
Proof. split; constructor. Qed.

Lemma wf_returning : Storage.wf (registry TestMode.returning).
Proof. split; (constructor; [intros [] | constructor]). Qed.

(** The arithmetic of the numbers set against the binary64 arithmetic
    of the kernel, at the amounts the scenarios below and the statements
    about the monthly amount turn on. *)
Lemma binary64_conformance :
  map JS.of_float
    [ 105 / 1000; 105 / 1000 / 3; 105 / 1000 / 3 * 100; 105 / 1000 * 100;
      1005 / 1000 / 3 * 100; 1005 / 1000 * 100;
      1000000000000000 / 3 * 100;
      15 / 1000 / 3 * 100; 45 / 1000 / 3; 45 / 1000 / 3 * 100;
      91 / 3; 91 / 3 * 100; -5 / 3 * 100 ]%float
  = [ JS.decimal (105 # 1000);
      JS.div (JS.decimal (105 # 1000)) 3;
      JS.mul (JS.div (JS.decimal (105 # 1000)) 3) 100;
      JS.mul (JS.decimal (105 # 1000)) 100;
      JS.mul (JS.div (JS.decimal (1005 # 1000)) 3) 100;
      JS.mul (JS.decimal (1005 # 1000)) 100;
      JS.mul (JS.div (JS.decimal 1000000000000000) 3) 100;
      JS.mul (JS.div (JS.decimal (15 # 1000)) 3) 100;
      JS.div (JS.decimal (45 # 1000)) 3;
      JS.mul (JS.div (JS.decimal (45 # 1000)) 3) 100;
      JS.div (JS.decimal 91) 3;
      JS.mul (JS.div (JS.decimal 91) 3) 100;
      JS.mul (JS.div (JS.decimal (-5)) 3) 100 ].
Proof. vm_compute. reflexivity. Qed.

(** What the roundings do to amounts that are not whole pence, or very
    large: 0.105 is billed at 3 pence a month while it rounds to 11 pence,
    1.005 at 34 pence while it rounds to 100, 10^15 pounds at
    33333333333333332 pence; a third of 0.045 is shown as 0.01 and billed
    at 2 pence; 10^21 is written in exponent form. *)
Lemma binary64_examples :
  monthlyAmountInPence (JS.decimal (105 # 1000)) = JS.of_Z 3
  /\ JS.Math_round (JS.mul (JS.decimal (105 # 1000)) 100) = JS.of_Z 11
  /\ monthlyAmountInPence (JS.decimal (1005 # 1000)) = JS.of_Z 34
  /\ JS.Math_round (JS.mul (JS.decimal (1005 # 1000)) 100) = JS.of_Z 100
  /\ monthlyAmountInPence (JS.decimal 1000000000000000)
     = JS.of_Z 33333333333333332
  /\ JS.toFixed2 (JS.div (JS.decimal (45 # 1000)) 3) = "0.01"
  /\ monthlyAmountInPence (JS.decimal (45 # 1000)) = JS.of_Z 2
  /\ JS.Number_toString (JS.decimal 1000000000000000000000) = "1e+21"
  /\ JS.Number_toString (JS.decimal (105 # 1000)) = "0.105".
Proof. vm_compute. repeat split. Qed.

(** C1, as stated, fails for a penalty of 91.00: the three instalments
    of the scenario run are 3033 pence each, not 3034, 3033 and 3033, and
    they add up to 9099 while the penalty is 9100 pence. *)
Lemma C1_split_counterexample :
  let r := run (create_checkout_session TestMode.no_env (request 91))
             TestMode.fresh in
  instalments (log_of r)
  = [Some (JS.of_Z 3033); Some (JS.of_Z 3033); Some (JS.of_Z 3033)]
  /\ JS.Math_round (JS.mul (JS.decimal 91) 100) = JS.of_Z 9100
  /\ (3033 + 3033 + 3033 <> 9100)%Z
  /\ hd_error (instalments (log_of r)) <> Some (Some (JS.of_Z 3034)).
Proof. vm_compute. repeat split; discriminate. Qed.

(** The amended C1 at work: the same penalty, written in pence. *)
Lemma C1_split_witness :
  (0 <= 9100 <= 10 ^ 15)%Z
  /\ body_penaltyAmount (request (9100 # 100))
     = JS.number (JS.decimal (9100 # 100))
  /\ let r := run (create_checkout_session TestMode.no_env
                     (request (9100 # 100)))
                TestMode.fresh in
     let i := Some (JS.of_Z ((9100 + 1) / 3)) in
     (instalments (log_of r) = [i; i; i] \/ instalments (log_of r) = [])
     /\ (forall j, outcome r = inr j -> instalments (log_of r) = [i; i; i])
     /\ (Z.abs (3 * ((9100 + 1) / 3) - 9100) <= 1)%Z
     /\ (3 * ((9100 + 1) / 3) = 9100 <-> 9100 mod 3 = 0)%Z.
Proof.
  assert (Hn : (0 <= 9100 <= 10 ^ 15)%Z) by (split; discriminate).
  split; [exact Hn|]. split; [reflexivity|].
  exact (C1_split_amended TestMode.no_env (request (9100 # 100))
           TestMode.fresh 9100 Hn eq_refl).
Defined.

(** C2 on the checkout route: nothing of the body is checked.  Whatever
    the body holds, a run of the route starts with the lookup of the
    customer and is never answered with ValidationError; on a fresh
    deployment the scenario request with a penalty of -5 is answered with
    status 200 and a checkout session, after the customer record and a
    price of -167 pence a month have been created, and so is the one with
    a penalty of 0, for a price of 0 pence. *)
Theorem C2_checkout_route_skips_validation :
  (forall (P : Processor) env body (w : World P),
      let r := run (create_checkout_session env body) w in
      outcome r <> inl ValidationError
      /\ exists first rest,
           log_of r = first :: rest
           /\ call first = GetCustomerByEmail (body_email body))
  /\ (let r := run (create_checkout_session TestMode.no_env (request (-5)))
                 TestMode.fresh in
      respond (outcome r)
      = Status200 (CheckoutJson "cs_test_4"
                     (Some "https://checkout.stripe.com/c/pay/cs_test_4") "c")
      /\ map call (firstn 2 (log_of r))
         = [GetCustomerByEmail "a@x.com";
            CreateCustomer (mkInsert "a@x.com" "PCN1" "AB12CDE")]
      /\ option_map call (nth_error (log_of r) 5)
         = Some (Stripe (prices_create (JS.of_Z (-167)) "gbp"
                           {| interval := "month"; interval_count := None |}
                           "prod_1"))
      /\ Storage.count (registry (world_of r)) "a@x.com" = 1%nat)
  /\ (let r := run (create_checkout_session TestMode.no_env (request 0))
                 TestMode.fresh in
      respond (outcome r)
      = Status200 (CheckoutJson "cs_test_4"
                     (Some "https://checkout.stripe.com/c/pay/cs_test_4") "c")
      /\ option_map call (nth_error (log_of r) 5)
         = Some (Stripe (prices_create (JS.of_Z 0) "gbp"
                           {| interval := "month"; interval_count := None |}
                           "prod_1"))
      /\ Storage.count (registry (world_of r)) "a@x.com" = 1%nat).
Proof.
  split.
  - intros P env body w.
    apply (create_checkout_session_validates_nothing env body w).
  - vm_compute. repeat split.
Qed.

(** C3 at work: the customer on record with processor customer "cus_9". *)
Lemma C3_retrieve_witness :
  accepted (CreateSubscription 0) (request 90) = true
  /\ Storage.wf (registry TestMode.returning)
  /\ Storage.getCustomerByEmail (registry TestMode.returning) "a@x.com"
     = Some (mkCustomer "c" "a@x.com" "PCN0" "XY34FGH" (Some "cus_9") None)
  /\ "cus_9" <> ""
  /\ let r := run (handler (CreateSubscription 0) (request 90))
                TestMode.returning in
     (exists first second rest,
         log_of r = first :: second :: rest
         /\ call first = GetCustomerByEmail "a@x.com"
         /\ call second = Stripe (customers_retrieve "cus_9"))
     /\ Forall (keeps_customer "cus_9") (log_of r)
     /\ exists c',
          Storage.getCustomerByEmail (registry (world_of r)) "a@x.com"
          = Some c'
          /\ stripeCustomerId c' = Some "cus_9".
Proof.
  split; [reflexivity|]. split; [exact wf_returning|].
  split; [reflexivity|]. split; [discriminate|].
  apply (C3_retrieve_never_create (CreateSubscription 0) (request 90)
           TestMode.returning
           (mkCustomer "c" "a@x.com" "PCN0" "XY34FGH" (Some "cus_9") None)
           "cus_9").
  - reflexivity.
  - exact wf_returning.
  - reflexivity.
  - reflexivity.
  - discriminate.
Defined.

(** C4 at work: the checkout scenario on a fresh deployment. *)
Lemma C4_persist_witness :
  Storage.wf (registry TestMode.fresh)
  /\ ForallOrdPairs
       (fun k e => forall sid,
            created_customer k sid -> charge_scheme_call e ->
            persisted "a@x.com" sid e)
       (log_of (run (handler (CreateCheckoutSession TestMode.no_env)
                       (request 90))
                  TestMode.fresh)).
Proof.
  split; [exact wf_fresh|].
  apply (C4_persist_before_proceed (CreateCheckoutSession TestMode.no_env)
           (request 90) TestMode.fresh).
  exact wf_fresh.
Defined.

(** C5 on the checkout route: the scenario request is answered with the
    redirect session although the schedule just created ("sub_sched_3",
    with subscription "sub_3") is on no record: the customer's
    stripeSubscriptionId is still unset. *)
Lemma C5_schedule_id_not_stored :
  let r := run (create_checkout_session TestMode.no_env (request 90))
             TestMode.fresh in
  respond (outcome r)
  = Status200 (CheckoutJson "cs_test_4"
                 (Some "https://checkout.stripe.com/c/pay/cs_test_4") "c")
  /\ option_map reply (nth_error (log_of r) 6)
     = Some (RObject (mkObject "sub_sched_3" None (Some "sub_3") None))
  /\ registry (world_of r)
     = [mkCustomer "c" "a@x.com" "PCN1" "AB12CDE" (Some "cus_0") None].
Proof. repeat split. Qed.

(** The same request on the direct route: the subscription id is on the
    record when the answer is given. *)
Lemma scenario_A_stores_subscription :
  let r := run (create_subscription 0 (request 90)) TestMode.fresh in
  respond (outcome r)
  = Status200 (SubscriptionJson (Some "pi_3_secret") "sub_3" "c")
  /\ registry (world_of r)
     = [mkCustomer "c" "a@x.com" "PCN1" "AB12CDE" (Some "cus_0")
          (Some "sub_3")].
Proof. repeat split. Qed.

(** C6, as stated, fails: of two scenario requests that both look the
    customer up before either creates it, the second is answered with
    status 400 and the ConflictError of its create. *)
Lemma C6_race_counterexample :
  map respond
    (fst (race [0; 1; 0; 1]%nat
            [create_subscription 0 (request 90);
             create_subscription 0 (request 90)]
            TestMode.fresh))
  = [Status200 (SubscriptionJson (Some "pi_3_secret") "sub_3" "c");
     Status400 ConflictError].
Proof. reflexivity. Qed.

(** The amended C6 at work: the same two requests leave one record. *)
Lemma C6_one_record_witness :
  accepted (CreateSubscription 0) (request 90) = true
  /\ Storage.wf (registry TestMode.fresh)
  /\ (0 < 2)%nat
  /\ Storage.getCustomerByEmail (registry TestMode.fresh) "a@x.com" = None
  /\ Storage.count
       (registry (snd (race [0; 1; 0; 1]%nat
                         (repeat (handler (CreateSubscription 0) (request 90)) 2)
                         TestMode.fresh)))
       "a@x.com" = 1%nat
  /\ exists first,
       map respond
         (fst (race [0; 1; 0; 1]%nat
                 [handler (CreateSubscription 0) (request 90);
                  handler (CreateSubscription 0) (request 90)]
                 TestMode.fresh))
       = [first; Status400 ConflictError].
Proof.
  split; [reflexivity|]. split; [exact wf_fresh|]. split; [lia|].
  split; [reflexivity|].
  destruct (C6_one_record_amended (CreateSubscription 0) (request 90)
              TestMode.fresh 2 [0; 1; 0; 1]%nat) as [H1 H2].
  - reflexivity.
  - exact wf_fresh.
  - lia.
  - split; [exact H1 | apply H2; reflexivity].
Defined.

(** C7, as stated, fails: in the scenario run of either route some created
    object lacks the metadata; the product of the direct route, the fifth
    call of the run, has none. *)
Lemma C7_metadata_counterexample :
  forallb carries_plan_metadata
    (log_of (run (create_subscription 0 (request 90)) TestMode.fresh)) = false
  /\ forallb carries_plan_metadata
       (log_of (run (create_checkout_session TestMode.no_env (request 90))
                  TestMode.fresh)) = false
  /\ option_map carries_plan_metadata
       (nth_error
          (log_of (run (create_subscription 0 (request 90)) TestMode.fresh)) 4)
     = Some false
  /\ option_map call
       (nth_error
          (log_of (run (create_subscription 0 (request 90)) TestMode.fresh)) 4)
     = Some (Stripe (products_create "PCN Payment Plan - PCN1"
                       "Recurring payment plan for PCN PCN1, Vehicle AB12CDE")).
Proof. repeat split. Qed.

(** The amended C7 at work: the checkout scenario for a penalty of 91. *)
Lemma C7_metadata_witness :
  Storage.wf (registry TestMode.fresh)
  /\ Storage.getCustomerByEmail
       (registry (world_of (run (handler (CreateCheckoutSession TestMode.no_env)
                                   (request 91))
                              TestMode.fresh)))
       "a@x.com"
     = Some (mkCustomer "c" "a@x.com" "PCN1" "AB12CDE" (Some "cus_0") None)
  /\ Forall
       (metadata_as_built
          (mkCustomer "c" "a@x.com" "PCN1" "AB12CDE" (Some "cus_0") None)
          (body_penaltyAmount (request 91)))
       (log_of (run (handler (CreateCheckoutSession TestMode.no_env)
                       (request 91))
                  TestMode.fresh)).
Proof.
  split; [exact wf_fresh|]. split; [reflexivity|].
  apply (C7_metadata_amended (CreateCheckoutSession TestMode.no_env)
           (request 91) TestMode.fresh).
  - exact wf_fresh.
  - reflexivity.
Defined.

(** C8, as stated, fails: in the scenario run the answer has a [url], the
    address of the processor's hosted page, and it does not start with the
    configured base address. *)
Lemma C8_redirect_counterexample :
  outcome (run (create_checkout_session TestMode.no_env (request 90))
             TestMode.fresh)
  = inr (CheckoutJson "cs_test_4"
           (Some "https://checkout.stripe.com/c/pay/cs_test_4") "c")
  /\ domainURL TestMode.no_env = "http://localhost:5000"
  /\ String.prefix (domainURL TestMode.no_env)
       "https://checkout.stripe.com/c/pay/cs_test_4" = false.
Proof. repeat split. Qed.

(** The amended C8 at work: the same run. *)
Lemma C8_checkout_output_witness :
  Storage.wf (registry TestMode.fresh)
  /\ outcome (run (create_checkout_session TestMode.no_env (request 90))
                TestMode.fresh)
     = inr (CheckoutJson "cs_test_4"
              (Some "https://checkout.stripe.com/c/pay/cs_test_4") "c")
  /\ exists e c o cus sub success_url cancel_url md,
       In e (log_of (run (create_checkout_session TestMode.no_env (request 90))
                       TestMode.fresh))
       /\ call e = Stripe (checkout_sessions_create "subscription" cus sub
                             "auto" success_url cancel_url md)
       /\ reply e = RObject o
       /\ CheckoutJson "cs_test_4"
            (Some "https://checkout.stripe.com/c/pay/cs_test_4") "c"
          = CheckoutJson (obj_id o) (url o) (id c)
       /\ Storage.getCustomerByEmail
            (registry (world_of (run (create_checkout_session TestMode.no_env
                                        (request 90)) TestMode.fresh)))
            "a@x.com" = Some c
       /\ success_url
          = "http://localhost:5000/payment-success?session_id={CHECKOUT_SESSION_ID}"
       /\ cancel_url = "http://localhost:5000/"
       /\ String.prefix "http://localhost:5000" success_url = true
       /\ String.prefix "http://localhost:5000" cancel_url = true.
Proof.
  split; [exact wf_fresh|]. split; [reflexivity|].
  apply (C8_checkout_output_amended TestMode.no_env (request 90) TestMode.fresh).
  - exact wf_fresh.
  - reflexivity.
Defined.

(** C10 at work: the scenario request, for PCN1 and AB12CDE, of a customer
    on record under PCN0 and XY34FGH. *)
Lemma C10_stored_fields_witness :
  Storage.wf (registry TestMode.returning)
  /\ identified (request 90) = true
  /\ Storage.getCustomerByEmail (registry TestMode.returning) "a@x.com"
     = Some (mkCustomer "c" "a@x.com" "PCN0" "XY34FGH" (Some "cus_9") None)
  /\ let r := run (create_subscription 0 (request 90)) TestMode.returning in
     (exists c',
         Storage.getCustomerByEmail (registry (world_of r)) "a@x.com"
         = Some c'
         /\ pcnNumber c' = "PCN0"
         /\ vehicleRegistration c' = "XY34FGH")
     /\ Forall
          (uses_stored_fields
             (mkCustomer "c" "a@x.com" "PCN0" "XY34FGH" (Some "cus_9") None)
             (request 90))
          (log_of r).
Proof.
  split; [exact wf_returning|]. split; [reflexivity|]. split; [reflexivity|].
  apply (C10_stored_fields_kept 0 (request 90) TestMode.returning
           (mkCustomer "c" "a@x.com" "PCN0" "XY34FGH" (Some "cus_9") None)).
  - exact wf_returning.
  - reflexivity.
  - reflexivity.
Defined.

(* ===================================================================== *)
(** ** The shape of a run, path by path *)
(* ===================================================================== *)

(** The entries of a log of known shape before its last one. *)
Ltac init_of l :=
  lazymatch l with
  | [_] => constr:(@nil Entry)
  | ?x :: ?t => let i := init_of t in constr:(x :: i)
  end.

Section RunShape.

Context {P : Processor}.

Implicit Types (w : World P) (body : RequestBody) (route : Route).


(** X2: The calls of a run, by kind, are an initial part of one of the three
    sequences of its route, and the whole of it when the request succeeds:
    one lookup, at most one record and one processor customer created, and
    for every request that succeeds one product, one price and one
    subscription (or one schedule and one session), whether or not the
    customer already had a plan. *)
Theorem calls_follow_the_sequence route body w :
  let r := run (handler route body) w in
  exists full rest,
    In full (call_sequences route)
    /\ full = (map kind (log_of r) ++ rest)%list
    /\ match outcome r with
       | inr _ => rest = []
       | inl _ => True
       end.
Proof.
  intros r. subst r.
  destruct route as [now|env]; run_paths; storage_facts;
    cbn [map kind call entry_of call_sequences app];
    first
      [ solve [eexists _, _; split; [left; reflexivity|];
               split; [reflexivity|]; first [reflexivity | exact I]]
      | solve [eexists _, _; split; [right; left; reflexivity|];
               split; [reflexivity|]; first [reflexivity | exact I]]
      | solve [eexists _, _; split; [right; right; left; reflexivity|];
               split; [reflexivity|]; first [reflexivity | exact I]] ].
Qed.

(** X3: The ids returned by the processor are the ones passed on: in every run
    the processor customer retrieved or created is the customer of every
    later subscription, schedule and session call and the id handed to the
    storage; the product created is the product of the price, the price the
    one item of the subscription or of the single three-iteration phase of
    the schedule, the schedule's subscription the one of the session, and
    the subscription created the one handed to the storage. *)
Theorem ids_are_passed_on route body w :
  let r := run (handler route body) w in
  ForallOrdPairs wired (log_of r)
  /\ ForallOrdPairs stores_created_subscription (log_of r).
Proof.
  intros r. subst r.
  destruct route as [now|env]; run_paths;
    (split; each_pair; reflexivity || exact I).
Qed.

End RunShape.

(** A checkout request without a usable penalty amount, on a fresh
    deployment.  With the amount null, the customer record, the processor
    customer, the product ("Total: £null") and a price of 0 pence are
    created before [penaltyAmount.toString()] throws; with the amount
    absent the price is created with NaN for its unit amount. *)
Lemma checkout_without_amount :
  let run_with amount :=
    run (create_checkout_session TestMode.no_env
           (with_penaltyAmount (request 90) amount)) TestMode.fresh in
  respond (outcome (run_with JS.null)) = Status400 TypeError
  /\ map kind (log_of (run_with JS.null))
     = [KLookup; KCreateRecord; KCustomer; KAttach; KProduct; KPrice]
  /\ map call (skipn 4 (log_of (run_with JS.null)))
     = [Stripe (products_create "PCN Payment Plan - PCN1"
                  "Recurring payment plan for PCN PCN1, Vehicle AB12CDE, Total: £null");
        Stripe (prices_create (JS.of_Z 0) "gbp"
                  {| interval := "month"; interval_count := None |} "prod_1")]
  /\ registry (world_of (run_with JS.null))
     = [mkCustomer "c" "a@x.com" "PCN1" "AB12CDE" (Some "cus_0") None]
  /\ respond (outcome (run_with JS.undefined)) = Status400 TypeError
  /\ map call (skipn 4 (log_of (run_with JS.undefined)))
     = [Stripe (products_create "PCN Payment Plan - PCN1"
                  "Recurring payment plan for PCN PCN1, Vehicle AB12CDE, Total: £undefined");
        Stripe (prices_create JS.NaN "gbp"
                  {| interval := "month"; interval_count := None |} "prod_1")].
Proof. vm_compute. repeat split. Qed.

(* ===================================================================== *)
(** ** More facts about the registry *)
(* ===================================================================== *)

Module StorageSteps.

Import Storage.

(** A record created for one email is not seen under another. *)
Lemma createCustomer_other r ins c r' e' :
  createCustomer r ins = inr (c, r') ->
  e' <> ins_email ins ->
  getCustomerByEmail r' e' = getCustomerByEmail r e'.
Proof.
  intros H Hne. apply createCustomer_inr in H as (_ & -> & ->).
  unfold getCustomerByEmail. rewrite find_app.
  destruct (find (fun c => email c =? e') r); [reflexivity|].
  cbn. destruct (String.eqb_spec (ins_email ins) e'); congruence.
Qed.

(** Under unique ids, the update of one customer leaves the records of the
    other emails as they are. *)
Lemma updateCustomerStripeInfo_other r e c scid sub c' r' e' :
  wf r -> holds r e c ->
  updateCustomerStripeInfo r (id c) scid sub = inr (c', r') ->
  e' <> e ->
  getCustomerByEmail r' e' = getCustomerByEmail r e'.
Proof.
  intros [Hid _] [He Hi] H Hne.
  apply updateCustomerStripeInfo_inr in H as (_ & _ & _ & ->).
  unfold getCustomerByEmail.
  rewrite find_map by (intros x; now rewrite attached_email).
  destruct (find (fun x => email x =? e') r) as [x|] eqn:E; [|reflexivity].
  cbn. f_equal. unfold attached.
  destruct (String.eqb_spec (id x) (id c)) as [Heq|]; [|reflexivity].
  exfalso. apply getCustomerByEmail_Some in E as [Hin Hx].
  apply getCustomerByEmail_Some in He as [Hc Hce].
  pose proof (getCustomer_unique r x Hid Hin) as Hgx.
  rewrite Heq, Hi in Hgx. injection Hgx as ->. congruence.
Qed.


End StorageSteps.

Import StorageSteps.

(** The storage calls of a path, one after the other: what is held for
    the email, that the registry stays well formed, and that the records of
    the other emails stay as they are. *)
Ltac storage_steps :=
  repeat match goal with
  | E : stripeCustomerId (mkCustomer _ _ _ _ None _) = Some _ |- _ =>
      discriminate E
  | Hwf : Storage.wf ?r, E : Storage.getCustomerByEmail ?r _ = Some _ |- _ =>
      apply (lookup_holds _ _ _ Hwf) in E
  | N : Storage.getCustomerByEmail ?r ?e = None,
    E : Storage.createCustomer ?r _ = inl _ |- _ =>
      exfalso; apply createCustomer_inl in E as [_ [? E]];
      cbn [ins_email] in E; rewrite N in E; discriminate E
  | Hwf : Storage.wf ?r, E : Storage.createCustomer ?r _ = inr (_, _) |- _ =>
      let Hh := fresh "Hholds" in
      let Hw := fresh "Hwf" in
      let Ho := fresh "Hother" in
      pose proof (createCustomer_holds _ _ _ _ E) as Hh; cbn [ins_email] in Hh;
      pose proof (createCustomer_wf _ _ _ _ Hwf E) as Hw;
      pose proof (fun e' => createCustomer_other _ _ _ _ e' E) as Ho;
      cbn [ins_email] in Ho;
      apply createCustomer_inr in E as (_ & -> & ?)
  | Hwf : Storage.wf ?r, Hh : Storage.holds ?r _ ?c,
    E : Storage.updateCustomerStripeInfo ?r (id ?c) _ _ = inr (_, _) |- _ =>
      let Hw := fresh "Hwf" in
      let Ho := fresh "Hother" in
      pose proof (updateCustomerStripeInfo_wf _ _ _ _ _ _ Hwf E) as Hw;
      pose proof (fun e' => updateCustomerStripeInfo_other _ _ _ _ _ _ _ e'
                              Hwf Hh E) as Ho;
      apply (updateCustomerStripeInfo_holds _ _ _ _ _ _ _ Hh) in E as [-> E]
  | E : Gateway.call _ _ (customers_retrieve _) = (SOk _, _) |- _ =>
      apply call_retrieve in E
  end.

Section Records.

Context {P : Processor}.

Implicit Types (w : World P) (body : RequestBody) (route : Route).

(** X4: A request touches the record of its own email only: the record held
    for any other email is the same after the run as before. *)
Theorem other_records_untouched route body w e' :
  Storage.wf (registry w) ->
  e' <> body_email body ->
  Storage.getCustomerByEmail
    (registry (world_of (run (handler route body) w))) e'
  = Storage.getCustomerByEmail (registry w) e'.
Proof.
  intros Hwf Hne.
  destruct route as [now|env]; run_paths; storage_steps; cbn [registry];
    repeat match goal with
           | H : forall e, e <> _ -> _ = _ |- _ =>
               rewrite (H e' Hne); clear H
           end;
    reflexivity.
Qed.

(** X5: The first request of an email stores the identifying fields of the
    request: whatever the run is answered, the email then has a record with
    the pcnNumber and the vehicleRegistration of the body. *)
Theorem first_request_stores_the_body route body w :
  accepted route body = true ->
  Storage.getCustomerByEmail (registry w) (body_email body) = None ->
  exists c,
    Storage.getCustomerByEmail
      (registry (world_of (run (handler route body) w))) (body_email body)
    = Some c
    /\ email c = body_email body
    /\ pcnNumber c = body_pcnNumber body
    /\ vehicleRegistration c = body_vehicleRegistration body
    /\ stripeSubscriptionId c
       = match outcome (run (handler route body) w) with
         | inr (SubscriptionJson _ sub _) => Some sub
         | _ => None
         end.
Proof.
  intros Hacc Hnone.
  destruct route as [now|env];
    [apply accepted_identified in Hacc|clear Hacc];
    run_paths; try congruence; storage_facts;
    (eexists; split; [cbn [registry]; pick_holds | repeat split]).
Qed.

(** X6: What the direct route answers with: the subscription id and the
    client secret are those of the subscription the processor returned for
    the last subscription call, the customer id is that of the record of
    the email; by then the record carries the subscription id and the id of
    the processor customer the subscription was created for. *)
Theorem direct_route_answer now body w j :
  Storage.wf (registry w) ->
  let r := run (create_subscription now body) w in
  outcome r = inr j ->
  exists e c o cus items pb sd ex md cancel,
    In e (log_of r)
    /\ call e = Stripe (subscriptions_create cus items pb sd ex md cancel)
    /\ reply e = RObject o
    /\ j = SubscriptionJson (client_secret o) (obj_id o) (id c)
    /\ Storage.getCustomerByEmail (registry (world_of r)) (body_email body)
       = Some c
    /\ stripeSubscriptionId c = Some (obj_id o)
    /\ stripeCustomerId c = Some cus.
Proof.
  intros Hwf r. subst r.
  run_paths; intros Hout; try discriminate Hout; storage_facts;
    injection Hout as <-;
    lazymatch goal with
    | |- context [In _ ?l] =>
        let i := init_of l in let x := last_of i in exists x
    end;
    lazymatch goal with
    | Hh : Storage.holds ?r _ ?c
      |- context [Storage.getCustomerByEmail (registry (mkWorld ?r _))] =>
        exists c
    end;
    eexists _, _, _, _, _, _, _, _;
    (split; [in_log|]);
    (split; [reflexivity|]);
    (split; [reflexivity|]);
    (split; [reflexivity|]);
    (split; [cbn [registry]; pick_holds|]);
    split; reflexivity.
Qed.

(** X7: The checkout route leaves the subscription id of the record alone: it
    hands no subscription or schedule id to the storage, and after the run
    the record of the email carries the subscription id it had before, none
    when the record is new. *)
Theorem checkout_route_keeps_subscription_id env body w :
  Storage.wf (registry w) ->
  let r := run (create_checkout_session env body) w in
  Forall sets_no_subscription (log_of r)
  /\ exists c',
       Storage.getCustomerByEmail (registry (world_of r)) (body_email body)
       = Some c'
       /\ stripeSubscriptionId c'
          = match Storage.getCustomerByEmail (registry w) (body_email body) with
            | Some c => stripeSubscriptionId c
            | None => None
            end.
Proof.
  intros Hwf r. subst r.
  destruct (Storage.getCustomerByEmail (registry w) (body_email body))
    as [c|] eqn:Hget;
    run_paths; try congruence;
    try (rewrite Hget in *; match goal with
                            | E : Some _ = Some _ |- _ => injection E as <-
                            end);
    storage_facts;
    (split; [each_entry; reflexivity || exact I|]);
    (eexists; split; [cbn [registry]; pick_holds | reflexivity]).
Qed.

End Records.

(* ===================================================================== *)
(** ** A request after another *)
(* ===================================================================== *)

Section Retry.

Context {P : Processor}.

Implicit Types (w : World P) (body : RequestBody) (route : Route).

(** A processor customer id the storage accepted during a run is on the
    record of the email when the run ends. *)
Lemma attached_id_is_kept route body w u cid sid sub c' :
  Storage.wf (registry w) ->
  let r := run (handler route body) w in
  In u (log_of r) ->
  call u = UpdateCustomerStripeInfo cid sid sub ->
  reply u = RCustomer c' ->
  exists c,
    Storage.getCustomerByEmail (registry (world_of r)) (body_email body)
    = Some c
    /\ stripeCustomerId c = Some sid.
Proof.
  intros Hwf r. subst r.
  destruct route as [now|env]; run_paths; storage_facts;
    intros Hin Hcall Hreply; cbn [In] in Hin;
    repeat (destruct Hin as [<-|Hin];
            [cbn [call reply entry_of reply_of] in Hcall, Hreply;
             try discriminate Hcall; try discriminate Hreply|]);
    try contradiction;
    injection Hcall as _ <- _;
    (eexists; split; [cbn [registry]; pick_holds | cbn; congruence]).
Qed.

(** A record that carries a processor customer id leads to the retrieval
    of that customer, on either route. *)
Lemma attached_customer_is_retrieved route body w c sid :
  accepted route body = true ->
  Storage.wf (registry w) ->
  Storage.getCustomerByEmail (registry w) (body_email body) = Some c ->
  stripeCustomerId c = Some sid ->
  sid <> "" ->
  let r := run (handler route body) w in
  (exists first second rest,
      log_of r = first :: second :: rest
      /\ call second = Stripe (customers_retrieve sid))
  /\ Forall (keeps_customer sid) (log_of r).
Proof.
  intros Hacc Hwf Hget Hsid Hne r. subst r.
  destruct route as [now|env];
    [apply accepted_identified in Hacc|clear Hacc];
    run_paths; try congruence; known_record Hget;
    try congruence;
    try (apply String.eqb_eq in Eempty; congruence);
    rewrite Hsid in Esid; injection Esid as <-;
    storage_facts;
    (split; [eexists _, _, _; repeat split; reflexivity|]);
    each_entry; cbn; first [exact I | congruence].
Qed.

(** X8: A retried request takes up the processor customer of the earlier one:
    once a run for an email has had a (non-empty) processor customer id
    accepted by the storage, whether it then succeeded or failed at a later
    call, the next request for that email, on either route, retrieves that
    customer right after the lookup, creates no processor customer, and
    hands no other id to the storage. *)
Theorem retry_resumes_with_the_customer route1 route2 body1 body2 w
    u cid sid sub c' :
  Storage.wf (registry w) ->
  body_email body2 = body_email body1 ->
  accepted route2 body2 = true ->
  let r1 := run (handler route1 body1) w in
  In u (log_of r1) ->
  call u = UpdateCustomerStripeInfo cid sid sub ->
  reply u = RCustomer c' ->
  sid <> "" ->
  let r2 := run (handler route2 body2) (world_of r1) in
  (exists first second rest,
      log_of r2 = first :: second :: rest
      /\ call second = Stripe (customers_retrieve sid))
  /\ Forall (keeps_customer sid) (log_of r2).
Proof.
  intros Hwf Hemail Hacc r1 Hin Hcall Hreply Hne r2.
  destruct (attached_id_is_kept route1 body1 w u cid sid sub c' Hwf
              Hin Hcall Hreply) as (c & Hc & Hsid).
  subst r2. eapply attached_customer_is_retrieved; eauto.
  - apply run_wf. exact Hwf.
  - rewrite Hemail. exact Hc.
Qed.


End Retry.

(* ===================================================================== *)
(** ** The monthly amount and the base address *)
(* ===================================================================== *)

Section MonthlyAmount.

Local Open Scope Z_scope.

(** X10: A larger penalty never gives a smaller monthly amount, in the
    binary64 arithmetic of the handler. *)
Theorem monthly_amount_monotone (A B : JS.Number) :
  JS.le A B -> JS.le (monthlyAmountInPence A) (monthlyAmountInPence B).
Proof.
  intros H. unfold monthlyAmountInPence.
  apply NumberFacts.Math_round_le, NumberFacts.mul_le, NumberFacts.div_le, H.
Qed.

(** From 90 to 91 pounds. *)
Lemma monthly_amount_monotone_witness :
  JS.le (JS.decimal 90) (JS.decimal 91)
  /\ JS.le (monthlyAmountInPence (JS.decimal 90))
       (monthlyAmountInPence (JS.decimal 91)).
Proof.
  assert (H : JS.le (JS.decimal 90) (JS.decimal 91))
    by (vm_compute; reflexivity).
  split; [exact H|]. exact (monthly_amount_monotone _ _ H).
Defined.

(** X11: For a penalty of [n] pence, up to 10^15 of them, the monthly
    amount is (n + 1) / 3 pence, rounded down: three of them make the
    penalty exactly when [n] is a multiple of 3, one penny less when it
    leaves remainder 1, one penny more when it leaves remainder 2. *)
Theorem monthly_amount_of_pence (n : Z) :
  0 <= n <= 10 ^ 15 ->
  monthlyAmountInPence (JS.decimal (n # 100)) = JS.of_Z ((n + 1) / 3)
  /\ 3 * ((n + 1) / 3) - n
     = match n mod 3 with
       | 0 => 0
       | 1 => -1
       | _ => 1
       end.
Proof.
  intros Hn. split; [exact (NumberFacts.monthly_amount_whole_pence n Hn)|].
  pose proof (Z.div_mod (n + 1) 3 ltac:(lia)).
  pose proof (Z.mod_pos_bound (n + 1) 3 ltac:(lia)).
  pose proof (Z.div_mod n 3 ltac:(lia)).
  pose proof (Z.mod_pos_bound n 3 ltac:(lia)).
  destruct (n mod 3) as [|[p|p|]|p] eqn:Hm; try lia.
Qed.

(** A penalty of 91.00: 3033 pence a month, one penny short in all. *)
Lemma monthly_amount_of_pence_witness :
  0 <= 9100 <= 10 ^ 15
  /\ monthlyAmountInPence (JS.decimal (9100 # 100))
     = JS.of_Z ((9100 + 1) / 3)
  /\ 3 * ((9100 + 1) / 3) - 9100
     = match 9100 mod 3 with
       | 0 => 0
       | 1 => -1
       | _ => 1
       end.
Proof.
  assert (Hn : 0 <= 9100 <= 10 ^ 15) by (split; discriminate).
  split; [exact Hn|]. exact (monthly_amount_of_pence 9100 Hn).
Defined.

(** A binary64 value and its magnitude. *)
Lemma binary64_magnitude (n : Z) :
  JS.binary64 (JS.Finite n) -> JS.round (Z.abs n) 1 = JS.Finite (Z.abs n).
Proof.
  unfold JS.binary64, JS.round. rewrite Z.abs_idemp.
  destruct (Z.ltb_spec n 0) as [Hneg|Hpos];
    destruct (Z.ltb_spec (Z.abs n) 0) as [|_]; try lia;
    destruct (_ <=? _); try discriminate; intros [= E]; f_equal; lia.
Qed.

(** X12: Where the monthly amount changes sign, for a binary64 penalty:
    it is at least one penny exactly from the number 0.015 on (the
    binary64 value nearest to 0.015, which lies below it), and negative
    exactly from -0.015000000000000003 down, the second binary64 value
    below -0.015.  A positive penalty under 1.5 pence is billed at nothing,
    and a negative one gives a negative price. *)
Theorem monthly_amount_sign (A : JS.Number) :
  JS.binary64 A ->
  (JS.lt (JS.of_Z 0) (monthlyAmountInPence A)
   <-> JS.le (JS.decimal (15 # 1000)) A)
  /\ (JS.lt (monthlyAmountInPence A) (JS.of_Z 0)
      <-> JS.le A (JS.decimal (-15000000000000003 # 1000000000000000000))).
Proof.
  intros Hdouble.
  set (s := 2 ^ 1015).
  set (a := 8646911284551352 * s).
  assert (ET : JS.decimal (15 # 1000) = JS.Finite a)
    by (vm_compute; reflexivity).
  assert (EU : JS.decimal (-15000000000000003 # 1000000000000000000)
               = JS.Finite (- (a + 2 * s)))
    by (vm_compute; reflexivity).
  assert (F1 : monthlyAmountInPence (JS.Finite a) = JS.of_Z (0 + 1))
    by (vm_compute; reflexivity).
  assert (F2 : monthlyAmountInPence (JS.Finite (a - s)) = JS.of_Z 0)
    by (vm_compute; reflexivity).
  assert (F3 : monthlyAmountInPence (JS.Finite (- (a + 2 * s)))
               = JS.of_Z (0 - 1))
    by (vm_compute; reflexivity).
  assert (F4 : monthlyAmountInPence (JS.Finite (- (a + s))) = JS.of_Z 0)
    by (vm_compute; reflexivity).
  assert (Hs : 0 < s) by (vm_compute; reflexivity).
  assert (Ha : 0 < a - s) by (vm_compute; reflexivity).
  assert (S1 : JS.spacing (a - s) = s) by (vm_compute; reflexivity).
  assert (S2 : JS.spacing a = s) by (vm_compute; reflexivity).
  assert (S3 : JS.spacing (a + s) = s) by (vm_compute; reflexivity).
  assert (S4 : JS.spacing (a + 2 * s) = s) by (vm_compute; reflexivity).
  assert (M1 : (a - s) mod s = 0) by (vm_compute; reflexivity).
  assert (M2 : (a + s) mod s = 0) by (vm_compute; reflexivity).
  rewrite ET, EU. clear ET EU.
  clearbody a s.
  split; split.
  - intros Hlt.
    destruct A as [|[]|n];
      [discriminate Hlt | discriminate Hlt | reflexivity |].
    apply Z.leb_le. destruct (Z.le_gt_cases a n) as [|Hn]; [assumption|].
    exfalso.
    assert (Hle : n <= a - s).
    { destruct (Z.le_gt_cases n (a - s)) as [|Hgt]; [assumption|].
      exfalso.
      apply (NumberFacts.no_binary64_between (a - s) s n); try assumption.
      - replace (a - s + s) with a by ring. exact S2.
      - lia. }
    apply (NumberFacts.not_lt_of_le (monthlyAmountInPence (JS.Finite n))
             (JS.of_Z 0)); [|exact Hlt].
    rewrite <- F2. apply NumberFacts.monthlyAmountInPence_le.
    apply Z.leb_le. exact Hle.
  - intros Hle. apply NumberFacts.lt_of_le_succ. rewrite <- F1.
    apply NumberFacts.monthlyAmountInPence_le. exact Hle.
  - intros Hlt.
    destruct A as [|[]|n];
      [discriminate Hlt | reflexivity | discriminate Hlt |].
    apply Z.leb_le.
    destruct (Z.le_gt_cases n (- (a + 2 * s))) as [|Hn]; [assumption|].
    exfalso.
    assert (Hle : - (a + s) <= n).
    { destruct (Z.le_gt_cases (- (a + s)) n) as [|Hgt]; [assumption|].
      exfalso.
      apply (NumberFacts.no_binary64_between (a + s) s (- n));
        try assumption; try lia.
      - replace (a + s + s) with (a + 2 * s) by ring. exact S4.
      - pose proof (binary64_magnitude n Hdouble) as Hm.
        rewrite Z.abs_neq in Hm by lia. exact Hm. }
    apply (NumberFacts.not_lt_of_le (JS.of_Z 0)
             (monthlyAmountInPence (JS.Finite n))); [|exact Hlt].
    rewrite <- F4. apply NumberFacts.monthlyAmountInPence_le.
    apply Z.leb_le. exact Hle.
  - intros Hle. apply NumberFacts.lt_of_le_pred. rewrite <- F3.
    apply NumberFacts.monthlyAmountInPence_le. exact Hle.
Qed.

(** The number 0.015 itself: billed at one penny a month. *)
Lemma monthly_amount_sign_witness :
  JS.binary64 (JS.decimal (15 # 1000))
  /\ (JS.lt (JS.of_Z 0) (monthlyAmountInPence (JS.decimal (15 # 1000)))
      <-> JS.le (JS.decimal (15 # 1000)) (JS.decimal (15 # 1000)))
  /\ (JS.lt (monthlyAmountInPence (JS.decimal (15 # 1000))) (JS.of_Z 0)
      <-> JS.le (JS.decimal (15 # 1000))
            (JS.decimal (-15000000000000003 # 1000000000000000000))).
Proof.
  assert (H : JS.binary64 (JS.decimal (15 # 1000)))
    by (vm_compute; reflexivity).
  split; [exact H|]. exact (monthly_amount_sign _ H).
Defined.

(** X13: What the customer is shown is what is billed, for a penalty of a
    whole number of pence: up to 10^15 pence, a third of the penalty
    printed with two decimals, as the portal and the metadata of the
    schedule and the session have it, is the unit amount of the price, in
    pounds and pence. *)
Theorem shown_amount_is_billed (n : Z) :
  0 <= n <= 10 ^ 15 ->
  exists pence,
    monthlyAmountInPence (JS.decimal (n # 100)) = JS.of_Z pence
    /\ JS.toFixed2 (JS.div (JS.decimal (n # 100)) 3)
       = pounds_and_pence pence.
Proof.
  intros Hn. exists ((n + 1) / 3). split.
  - exact (NumberFacts.monthly_amount_whole_pence n Hn).
  - exact (NumberFacts.toFixed2_whole_pence n Hn).
Qed.

(** A penalty of 91.00: 30.33 shown, 3033 pence billed. *)
Lemma shown_amount_is_billed_witness :
  0 <= 9100 <= 10 ^ 15
  /\ exists pence,
       monthlyAmountInPence (JS.decimal (9100 # 100)) = JS.of_Z pence
       /\ JS.toFixed2 (JS.div (JS.decimal (9100 # 100)) 3)
          = pounds_and_pence pence.
Proof.
  assert (Hn : 0 <= 9100 <= 10 ^ 15) by (split; discriminate).
  split; [exact Hn|]. exact (shown_amount_is_billed 9100 Hn).
Defined.

End MonthlyAmount.

Section BaseAddress.

Ltac by_variables :=
  unfold domainURL, base_candidates, JS.or_else, JS.truthy, text;
  cbn [CUSTOM_DOMAIN_URL WEBSITE_HOSTNAME REPL_SLUG REPL_OWNER WEBSITE_URL
       negb orb filter hd String.eqb Ascii.eqb Bool.eqb andb append];
  repeat (match goal with
          | |- context [?x =? ""] =>
              lazymatch x with
              | String _ _ => fail
              | EmptyString => fail
              | _ => destruct (String.eqb_spec x ""); subst
              end
          end;
          cbn [negb orb filter hd String.eqb Ascii.eqb Bool.eqb andb append]).

(** X14: The base address is the first of: the custom domain, the host name
    behind "https://", the repl address when both its parts are set, and
    the website address, that is set and not empty; it is the local
    address when there is none.  A variable set to the empty text counts as
    not set. *)
Theorem base_address_by_preference (env : Env) :
  domainURL env
  = hd "http://localhost:5000"
      (filter (fun s => negb (s =? "")) (base_candidates env)).
Proof.
  destruct env as [[c|] [h|] [s|] [o|] [u|]]; by_variables;
    first [reflexivity | congruence].
Qed.

(** X15: The base address is never empty, whatever the environment. *)
Theorem base_address_not_empty (env : Env) : domainURL env <> "".
Proof.
  destruct env as [[c|] [h|] [s|] [o|] [u|]]; by_variables;
    first [assumption | discriminate | congruence].
Qed.

End BaseAddress.

(* ===================================================================== *)
(** ** The portal and the routes it posts to *)
(* ===================================================================== *)

Module RegistrationFacts.

Import Registration.

(** A character of the class is its own upper-case form. *)
Lemma plate_character_upper (c : ascii) :
  plate_character c = true -> upper c = c.
Proof.
  destruct c as [[] [] [] [] [] [] [] []]; vm_compute; congruence.
Qed.

(** What is left after the replacement is of the class. *)
Lemma replace_others_plate_text (value : string) :
  plate_text (replace_others value) = true.
Proof.
  induction value as [|c rest IH]; [reflexivity|]. cbn.
  destruct (plate_character c) eqn:E; [|exact IH].
  cbn. now rewrite E.
Qed.

Lemma replace_others_length (value : string) :
  (String.length (replace_others value) <= String.length value)%nat.
Proof.
  induction value as [|c rest IH]; [apply le_n|]. cbn.
  destruct (plate_character c); cbn; lia.
Qed.

Lemma toUpperCase_length (value : string) :
  String.length (toUpperCase value) = String.length value.
Proof.
  induction value as [|c rest IH]; [reflexivity|]. cbn. now rewrite IH.
Qed.

(** A text of the class is left as it is. *)
Lemma plate_text_fixed (value : string) :
  plate_text value = true -> replace_others (toUpperCase value) = value.
Proof.
  induction value as [|c rest IH]; [reflexivity|]. cbn.
  intros [Hc Hrest]%andb_true_iff.
  rewrite (plate_character_upper c Hc), Hc, (IH Hrest). reflexivity.
Qed.

End RegistrationFacts.

Section PortalInputs.

Import Registration RegistrationFacts.

(** An input event keeps the registration of the form a text of the
    class, in either portal, and so does a sequence of them. *)
Lemma checkout_input_keeps_plate_text parseFloat field value prev :
  plate_text (CheckoutPortal.vehicleRegistration prev) = true ->
  plate_text (CheckoutPortal.vehicleRegistration
                (CheckoutPortal.handleInputChange parseFloat field value prev))
  = true.
Proof.
  intros H. unfold CheckoutPortal.handleInputChange.
  repeat match goal with
         | |- context [if ?b then _ else _] => destruct b
         end; cbn; auto using replace_others_plate_text.
Qed.

Lemma checkout_inputs_keep_plate_text parseFloat inputs start :
  plate_text (CheckoutPortal.vehicleRegistration start) = true ->
  plate_text (CheckoutPortal.vehicleRegistration
                (fold_left (fun prev input =>
                   CheckoutPortal.handleInputChange parseFloat
                     (fst input) (snd input) prev) inputs start))
  = true.
Proof.
  revert start. induction inputs as [|input inputs IH]; intros start H.
  - exact H.
  - cbn [fold_left]. apply IH. now apply checkout_input_keeps_plate_text.
Qed.

Lemma direct_input_keeps_plate_text field value prev :
  plate_text (DirectPortal.vehicleRegistration prev) = true ->
  plate_text (DirectPortal.vehicleRegistration
                (DirectPortal.handleInputChange field value prev))
  = true.
Proof.
  intros H. unfold DirectPortal.handleInputChange.
  repeat match goal with
         | |- context [if ?b then _ else _] => destruct b
         end; cbn; auto using replace_others_plate_text.
Qed.

Lemma direct_inputs_keep_plate_text inputs start :
  plate_text (DirectPortal.vehicleRegistration start) = true ->
  plate_text (DirectPortal.vehicleRegistration
                (fold_left (fun prev input =>
                   DirectPortal.handleInputChange
                     (fst input) (snd input) prev) inputs start))
  = true.
Proof.
  revert start. induction inputs as [|input inputs IH]; intros start H.
  - exact H.
  - cbn [fold_left]. apply IH. now apply direct_input_keeps_plate_text.
Qed.

(** X16: The registration field keeps upper-case letters and digits only: for
    ASCII input the text kept is made of characters of A-Z and 0-9, is no
    longer than the input, and is the input itself when that is already
    such a text, so that keeping it again changes nothing. *)
Theorem registration_kept_as_plate_text (value : string) :
  ascii_text value = true ->
  let kept := replace_others (toUpperCase value) in
  plate_text kept = true
  /\ (String.length kept <= String.length value)%nat
  /\ (plate_text value = true -> kept = value)
  /\ replace_others (toUpperCase kept) = kept.
Proof.
  intros _ kept. subst kept.
  split; [apply replace_others_plate_text|].
  split; [eapply Nat.le_trans;
          [apply replace_others_length
          |rewrite toUpperCase_length; apply le_n]|].
  split; [apply plate_text_fixed|].
  apply plate_text_fixed, replace_others_plate_text.
Qed.

(** A registration typed in lower case, with a blank. *)
Lemma registration_kept_witness :
  ascii_text "ab12 cde" = true
  /\ let kept := replace_others (toUpperCase "ab12 cde") in
     plate_text kept = true
     /\ (String.length kept <= String.length "ab12 cde")%nat
     /\ (plate_text "ab12 cde" = true -> kept = "ab12 cde")
     /\ replace_others (toUpperCase kept) = kept.
Proof.
  split; [reflexivity|].
  apply (registration_kept_as_plate_text "ab12 cde"). reflexivity.
Defined.

(** X17: What the checkout portal posts has been checked by the portal: after
    any sequence of (ASCII) input events, a form that is posted has the
    terms accepted, a non-empty email, PCN number and registration, a
    registration made of A-Z and 0-9 only, and as penalty the number of
    an amount above zero, for which the monthly price is not negative. *)
Theorem checkout_portal_posts_checked_fields
    (parseFloat : string -> option Q) inputs acceptedTerms body :
  Forall (fun input => ascii_text (snd input) = true) inputs ->
  CheckoutPortal.handleFormSubmit
    (CheckoutPortal.after_inputs parseFloat inputs) acceptedTerms
  = CheckoutPortal.Posted body ->
  acceptedTerms = true
  /\ identified body = true
  /\ plate_text (body_vehicleRegistration body) = true
  /\ exists amount,
       body_penaltyAmount body = JS.number (JS.decimal amount)
       /\ (0 < amount)%Q
       /\ JS.le (JS.of_Z 0) (monthlyAmountInPence (JS.decimal amount)).
Proof.
  intros _. unfold CheckoutPortal.handleFormSubmit.
  pose proof (checkout_inputs_keep_plate_text parseFloat inputs
                CheckoutPortal.initial eq_refl) as Hplate.
  fold (CheckoutPortal.after_inputs parseFloat inputs) in Hplate.
  set (formData := CheckoutPortal.after_inputs parseFloat inputs) in *.
  destruct (_ || _) eqn:Hchecks; [discriminate|].
  destruct acceptedTerms; [|discriminate]. intros [= <-].
  repeat (apply orb_false_iff in Hchecks as [Hchecks ?]).
  assert (Hpos : (0 < CheckoutPortal.penaltyAmount formData)%Q).
  { apply Qnot_le_lt. intros Hle. apply Qle_bool_iff in Hle. congruence. }
  cbn [body_penaltyAmount body_vehicleRegistration body_email body_pcnNumber].
  split; [reflexivity|]. split.
  { unfold identified.
    cbn [body_vehicleRegistration body_email body_pcnNumber].
    apply negb_true_iff.
    repeat (apply orb_false_iff; split); assumption. }
  split; [exact Hplate|].
  exists (CheckoutPortal.penaltyAmount formData).
  split; [reflexivity|]. split; [exact Hpos|].
  assert (E : JS.of_Z 0 = monthlyAmountInPence (JS.of_Z 0))
    by (vm_compute; reflexivity).
  rewrite E at 1. apply NumberFacts.monthlyAmountInPence_le.
  apply NumberFacts.decimal_nonneg. lra.
Qed.

End PortalInputs.

(** The form of the checkout portal with a registration and an amount
    typed in, the terms accepted. *)
Lemma checkout_portal_posts_witness :
  let parseFloat := fun _ : string => Some (91 # 1) in
  let inputs := [("vehicleRegistration", "ab12 cde"); ("penaltyAmount", "91")] in
  let body := {| body_email := "pcn@payment.com";
                 body_pcnNumber := "PCN123456789";
                 body_vehicleRegistration := "AB12CDE";
                 body_penaltyAmount := JS.number (JS.decimal (91 # 1)) |} in
  Forall (fun input => Registration.ascii_text (snd input) = true) inputs
  /\ CheckoutPortal.handleFormSubmit
       (CheckoutPortal.after_inputs parseFloat inputs) true
     = CheckoutPortal.Posted body
  /\ (true = true
      /\ identified body = true
      /\ Registration.plate_text (body_vehicleRegistration body) = true
      /\ exists amount,
           body_penaltyAmount body = JS.number (JS.decimal amount)
           /\ (0 < amount)%Q
           /\ JS.le (JS.of_Z 0) (monthlyAmountInPence (JS.decimal amount))).
Proof.
  intros parseFloat inputs body.
  assert (Hinputs : Forall (fun input =>
                      Registration.ascii_text (snd input) = true) inputs)
    by (repeat constructor).
  assert (Hposted : CheckoutPortal.handleFormSubmit
                      (CheckoutPortal.after_inputs parseFloat inputs) true
                    = CheckoutPortal.Posted body) by reflexivity.
  split; [exact Hinputs|]. split; [exact Hposted|].
  exact (checkout_portal_posts_checked_fields parseFloat inputs true body
           Hinputs Hposted).
Defined.

Section PortalAndServer.

Context {P : Processor}.

Implicit Types (w : World P) (body : RequestBody).

Import Registration RegistrationFacts.

(** X18: What the direct portal posts passes the validation of its route: after
    any sequence of (ASCII) input events, the fields of a form that is
    posted are non-empty and the registration is made of A-Z and 0-9 only,
    so that the server, whatever else the body carries, goes on to look the
    email of the form up and does not answer with ValidationError. *)
Theorem direct_portal_post_passes_validation inputs fields body now w :
  Forall (fun input => ascii_text (snd input) = true) inputs ->
  DirectPortal.handleFormSubmit (DirectPortal.after_inputs inputs)
  = DirectPortal.Posted fields ->
  DirectPortal.carries body fields ->
  let r := run (create_subscription now body) w in
  plate_text (body_vehicleRegistration body) = true
  /\ outcome r <> inl ValidationError
  /\ exists first rest,
       log_of r = first :: rest
       /\ call first = GetCustomerByEmail (ins_email fields).
Proof.
  intros _ Hposted (Hemail & Hpcn & Hreg) r. subst r.
  pose proof (direct_inputs_keep_plate_text inputs
                DirectPortal.initial eq_refl) as Hplate.
  fold (DirectPortal.after_inputs inputs) in Hplate.
  unfold DirectPortal.handleFormSubmit in Hposted.
  destruct (_ || _) eqn:Hchecks in Hposted; [discriminate|].
  injection Hposted as <-.
  cbn [ins_email ins_pcnNumber ins_vehicleRegistration] in *.
  repeat (apply orb_false_iff in Hchecks as [Hchecks ?]).
  split; [now rewrite Hreg|].
  assert (Hid : (body_email body =? "") || (body_pcnNumber body =? "")
                || (body_vehicleRegistration body =? "") = false).
  { rewrite Hemail, Hpcn, Hreg.
    repeat (apply orb_false_iff; split); assumption. }
  rewrite <- Hemail. clear - Hid.
  run_paths; try congruence; storage_facts;
    (split; [|eexists _, _; split; reflexivity]);
    try discriminate;
    match goal with
    | E : Storage.updateCustomerStripeInfo _ _ _ _ = inl _ |- _ =>
        apply updateCustomerStripeInfo_inl in E as [-> | ->]; discriminate
    end.
Qed.

(** X19: The checkout portal leaves for the processor exactly when the request
    got as far as the checkout session and the session has a url: it
    redirects to [u] if and only if the run of the route made a session
    call that returned an object with the non-empty url [u]; any failure
    on the way, and a session without url, ends in the error toast. *)
Theorem checkout_portal_redirects_to_the_session env body w u :
  let r := run (create_checkout_session env body) w in
  CheckoutPortal.handleResponse (respond (outcome r))
  = CheckoutPortal.Redirect u
  <-> exists e o mode cus sub name success cancel md,
        In e (log_of r)
        /\ call e = Stripe (checkout_sessions_create mode cus sub name
                              success cancel md)
        /\ reply e = RObject o
        /\ url o = Some u
        /\ u <> "".
Proof.
  intros r. subst r.
  run_paths; cbn [respond CheckoutPortal.handleResponse]; split;
    try (intros Hscreen; discriminate Hscreen);
    try (intros (ent & o' & mode & cus & sub & name & success & cancel & md
                 & Hin & Hcall & Hreply & Hurl & Hne);
         cbn [In] in Hin;
         repeat (destruct Hin as [<-|Hin];
                 [cbn [call reply entry_of reply_of] in Hcall, Hreply;
                  try discriminate Hcall; try discriminate Hreply|]);
         try contradiction;
         (injection Hreply as <-; rewrite Hurl; cbn [JS.truthy negb];
          (destruct (String.eqb_spec u ""); [contradiction|reflexivity]))).
  all: intros Hscreen;
    lazymatch goal with
    | |- context [In _ ?l] => let x := last_of l in exists x
    end;
    lazymatch type of Hscreen with
    | context [url ?o] =>
        exists o; destruct (url o) as [u'|] eqn:Hurl; [|discriminate Hscreen]
    end;
    cbn [JS.truthy] in Hscreen;
    destruct (String.eqb_spec u' ""); [discriminate Hscreen|];
    injection Hscreen as <-;
    eexists _, _, _, _, _, _, _;
    (split; [in_log|]);
    (split; [reflexivity|]);
    (split; [reflexivity|]);
    split; [reflexivity|assumption].
Qed.

(** X20: The direct portal shows the payment step exactly when the request was
    answered after a subscription call that returned a client secret: it
    goes on with the secret [secret] if and only if the run of the route
    succeeded to its end and made a subscription call that returned an
    object with the non-empty client secret [secret].  A subscription
    created without client secret is stored and answered with status 200,
    and shown as a failure. *)
Theorem direct_portal_shows_the_payment_step now body w secret :
  let r := run (create_subscription now body) w in
  DirectPortal.handleResponse (respond (outcome r))
  = DirectPortal.PaymentStep secret
  <-> (exists j, outcome r = inr j)
      /\ exists e o cus items pb sd ex md cancel,
           In e (log_of r)
           /\ call e = Stripe (subscriptions_create cus items pb sd ex md
                                 cancel)
           /\ reply e = RObject o
           /\ client_secret o = Some secret
           /\ secret <> "".
Proof.
  intros r. subst r.
  run_paths; cbn [respond DirectPortal.handleResponse]; split;
    try (intros Hscreen; discriminate Hscreen);
    try (intros [[j Hj] _]; discriminate Hj);
    try (intros (_ & ent & o' & cus & items & pb & sd & ex & md & cancel
                 & Hin & Hcall & Hreply & Hsecret & Hne);
         cbn [In] in Hin;
         repeat (destruct Hin as [<-|Hin];
                 [cbn [call reply entry_of reply_of] in Hcall, Hreply;
                  try discriminate Hcall; try discriminate Hreply|]);
         try contradiction;
         (injection Hreply as <-; rewrite Hsecret; cbn [JS.truthy negb];
          (destruct (String.eqb_spec secret ""); [contradiction|reflexivity]))).
  all: intros Hscreen; (split; [eexists; reflexivity|]);
    lazymatch goal with
    | |- context [In _ ?l] =>
        let i := init_of l in let x := last_of i in exists x
    end;
    lazymatch type of Hscreen with
    | context [client_secret ?o] =>
        exists o; destruct (client_secret o) as [secret'|] eqn:Hsecret;
        [|discriminate Hscreen]
    end;
    cbn [JS.truthy] in Hscreen;
    destruct (String.eqb_spec secret' ""); [discriminate Hscreen|];
    injection Hscreen as <-;
    eexists _, _, _, _, _, _, _;
    (split; [in_log|]);
    (split; [reflexivity|]);
    (split; [reflexivity|]);
    split; [reflexivity|assumption].
Qed.

End PortalAndServer.

(* ===================================================================== *)
(** ** The further properties, at work in test mode *)
(* ===================================================================== *)

(** A request of another customer leaves the record of "a@x.com" as it
    is. *)
Lemma other_records_untouched_witness :
  Storage.wf (registry TestMode.returning)
  /\ "a@x.com" <> body_email (mkBody "b@x.com" "PCN2" "XY99ZZZ"
                       (JS.number (JS.decimal 60)))
  /\ Storage.getCustomerByEmail
       (registry (world_of
          (run (handler (CreateCheckoutSession TestMode.no_env)
                  (mkBody "b@x.com" "PCN2" "XY99ZZZ"
                       (JS.number (JS.decimal 60))))
             TestMode.returning)))
       "a@x.com"
     = Storage.getCustomerByEmail (registry TestMode.returning) "a@x.com".
Proof.
  split; [exact wf_returning|]. split; [discriminate|].
  apply (other_records_untouched (CreateCheckoutSession TestMode.no_env)
           (mkBody "b@x.com" "PCN2" "XY99ZZZ"
                       (JS.number (JS.decimal 60))) TestMode.returning
           "a@x.com").
  - exact wf_returning.
  - discriminate.
Defined.

(** The scenario request on a fresh deployment, on the direct route. *)
Lemma first_request_stores_the_body_witness :
  accepted (CreateSubscription 0) (request 90) = true
  /\ Storage.getCustomerByEmail (registry TestMode.fresh)
       (body_email (request 90)) = None
  /\ exists c,
       Storage.getCustomerByEmail
         (registry (world_of
            (run (handler (CreateSubscription 0) (request 90))
               TestMode.fresh)))
         (body_email (request 90))
       = Some c
       /\ email c = body_email (request 90)
       /\ pcnNumber c = body_pcnNumber (request 90)
       /\ vehicleRegistration c = body_vehicleRegistration (request 90)
       /\ stripeSubscriptionId c
          = match outcome (run (handler (CreateSubscription 0) (request 90))
                             TestMode.fresh) with
            | inr (SubscriptionJson _ sub _) => Some sub
            | _ => None
            end.
Proof.
  split; [reflexivity|]. split; [reflexivity|].
  apply (first_request_stores_the_body (CreateSubscription 0) (request 90)
           TestMode.fresh); reflexivity.
Defined.

(** The scenario request on a fresh deployment, answered by the direct
    route. *)
Lemma direct_route_answer_witness :
  Storage.wf (registry TestMode.fresh)
  /\ outcome (run (create_subscription 0 (request 90)) TestMode.fresh)
     = inr (SubscriptionJson (Some "pi_3_secret") "sub_3" "c")
  /\ exists e c o cus items pb sd ex md cancel,
       In e (log_of (run (create_subscription 0 (request 90)) TestMode.fresh))
       /\ call e = Stripe (subscriptions_create cus items pb sd ex md cancel)
       /\ reply e = RObject o
       /\ SubscriptionJson (Some "pi_3_secret") "sub_3" "c"
          = SubscriptionJson (client_secret o) (obj_id o) (id c)
       /\ Storage.getCustomerByEmail
            (registry (world_of
               (run (create_subscription 0 (request 90)) TestMode.fresh)))
            (body_email (request 90))
          = Some c
       /\ stripeSubscriptionId c = Some (obj_id o)
       /\ stripeCustomerId c = Some cus.
Proof.
  split; [exact wf_fresh|]. split; [reflexivity|].
  apply (direct_route_answer 0 (request 90) TestMode.fresh).
  - exact wf_fresh.
  - reflexivity.
Defined.

(** The checkout route for the customer on record, who has no
    subscription id. *)
Lemma checkout_route_keeps_subscription_id_witness :
  Storage.wf (registry TestMode.returning)
  /\ let r := run (create_checkout_session TestMode.no_env (request 90))
                TestMode.returning in
     Forall sets_no_subscription (log_of r)
     /\ exists c',
          Storage.getCustomerByEmail (registry (world_of r))
            (body_email (request 90))
          = Some c'
          /\ stripeSubscriptionId c'
             = match Storage.getCustomerByEmail (registry TestMode.returning)
                       (body_email (request 90)) with
               | Some c => stripeSubscriptionId c
               | None => None
               end.
Proof.
  split; [exact wf_returning|].
  apply (checkout_route_keeps_subscription_id TestMode.no_env (request 90)
           TestMode.returning).
  exact wf_returning.
Defined.

(** The scenario request on the checkout route, then the same customer on
    the direct route: the second run retrieves "cus_0". *)
Lemma retry_resumes_witness :
  let r1 := run (handler (CreateCheckoutSession TestMode.no_env) (request 90))
              TestMode.fresh in
  let stored_before :=
    mkCustomer "c" "a@x.com" "PCN1" "AB12CDE" None None in
  let stored_after :=
    mkCustomer "c" "a@x.com" "PCN1" "AB12CDE" (Some "cus_0") None in
  let u := mkEntry (UpdateCustomerStripeInfo "c" "cus_0" None)
             (RCustomer stored_after) [stored_before] in
  Storage.wf (registry TestMode.fresh)
  /\ body_email (request 60) = body_email (request 90)
  /\ accepted (CreateSubscription 0) (request 60) = true
  /\ In u (log_of r1)
  /\ call u = UpdateCustomerStripeInfo "c" "cus_0" None
  /\ reply u = RCustomer stored_after
  /\ "cus_0" <> ""
  /\ let r2 := run (handler (CreateSubscription 0) (request 60))
                 (world_of r1) in
     (exists first second rest,
         log_of r2 = first :: second :: rest
         /\ call second = Stripe (customers_retrieve "cus_0"))
     /\ Forall (keeps_customer "cus_0") (log_of r2).
Proof.
  intros r1 stored_before stored_after u.
  assert (Hin : In u (log_of r1))
    by (right; right; right; left; reflexivity).
  split; [exact wf_fresh|]. split; [reflexivity|]. split; [reflexivity|].
  split; [exact Hin|]. split; [reflexivity|]. split; [reflexivity|].
  split; [discriminate|].
  apply (retry_resumes_with_the_customer
           (CreateCheckoutSession TestMode.no_env) (CreateSubscription 0)
           (request 90) (request 60) TestMode.fresh
           u "c" "cus_0" None stored_after).
  - exact wf_fresh.
  - reflexivity.
  - reflexivity.
  - exact Hin.
  - reflexivity.
  - reflexivity.
  - discriminate.
Defined.


(** The form of the direct portal, filled in and posted on a fresh
    deployment. *)
Lemma direct_portal_post_witness :
  let inputs := [("email", "a@x.com"); ("pcnNumber", "PCN1");
                 ("vehicleRegistration", "ab12 cde")] in
  let fields := mkInsert "a@x.com" "PCN1" "AB12CDE" in
  Forall (fun input => Registration.ascii_text (snd input) = true) inputs
  /\ DirectPortal.handleFormSubmit (DirectPortal.after_inputs inputs)
     = DirectPortal.Posted fields
  /\ DirectPortal.carries (request 90) fields
  /\ let r := run (create_subscription 0 (request 90)) TestMode.fresh in
     Registration.plate_text (body_vehicleRegistration (request 90)) = true
     /\ outcome r <> inl ValidationError
     /\ exists first rest,
          log_of r = first :: rest
          /\ call first = GetCustomerByEmail (ins_email fields).
Proof.
  intros inputs fields.
  assert (Hinputs : Forall (fun input =>
                      Registration.ascii_text (snd input) = true) inputs)
    by (repeat constructor).
  assert (Hcarries : DirectPortal.carries (request 90) fields)
    by (repeat split).
  split; [exact Hinputs|]. split; [reflexivity|]. split; [exact Hcarries|].
  apply (direct_portal_post_passes_validation inputs fields (request 90) 0
           TestMode.fresh).
  - exact Hinputs.
  - reflexivity.
  - exact Hcarries.
Defined.

